(** * DataVisualizer: per-dimension statistics, summaries and chart series

    A shallow embedding of [src/components/DataVisualizer.tsx].  JavaScript
    numbers are IEEE 754 binary64 values, modelled by Rocq's primitive
    [float]; arrays are lists; [undefined] is [None]; a thrown exception is
    the [Throw] completion. *)

From Stdlib Require Import Floats ZArith List String Ascii Bool Lia Permutation.
From Stdlib Require Uint63 DecimalString.
Import ListNotations.

Set Warnings "-inexact-float".

Local Open Scope float_scope.

(* ================================================================== *)
(** * Part I: definitions *)
(* ================================================================== *)

(** ** The JavaScript operations the component calls *)

Module JS.

(** An element read out of a [number[]]: a number, or [undefined] ([None])
    when the index is outside the array. *)
Definition value : Type := option float.

(** [a[i]]: reading outside the array yields [undefined], it does not throw. *)
Definition index {A : Type} (a : list A) (i : nat) : option A := nth_error a i.

(** ToNumber on a number or [undefined]: [undefined] becomes NaN. *)
Definition ToNumber (v : value) : float :=
  match v with
  | Some x => x
  | None => nan
  end.

(** [a + b] and [a - b] with [a] a number and [b] possibly [undefined]. *)
Definition add (a : float) (b : value) : float := a + ToNumber b.
Definition sub (a : value) (b : float) : float := ToNumber a - b.

(** [Array.prototype.map]: the callback receives the element and its index. *)
Fixpoint map_from {A B : Type} (f : A -> nat -> B) (i : nat) (a : list A) : list B :=
  match a with
  | [] => []
  | x :: rest => f x i :: map_from f (S i) rest
  end.

Definition map {A B : Type} (f : A -> nat -> B) (a : list A) : list B :=
  map_from f 0 a.

(** [Array.prototype.reduce] with an initial value: a left fold. *)
Definition reduce {A B : Type} (f : B -> A -> B) (init : B) (a : list A) : B :=
  fold_left f a init.

(** [a.length] as a number.  Array lengths are below 2^32, so the
    conversion is exact. *)
Definition length {A : Type} (a : list A) : float :=
  of_uint63 (Uint63.of_Z (Z.of_nat (List.length a))).

Definition is_neg_zero (x : float) : bool := PrimFloat.Leibniz.eqb x neg_zero.
Definition is_pos_zero (x : float) : bool := PrimFloat.Leibniz.eqb x PrimFloat.zero.

(** [Math.min(...args)] (ECMA-262): the arguments are coerced with ToNumber;
    starting from +Infinity, a NaN argument makes the result NaN, -0 is taken
    to be below +0, and otherwise the smaller number is kept.  The spread
    passes every element as an argument; the bound an engine puts on the
    number of arguments is left out. *)
Fixpoint min_loop (lowest : float) (coerced : list float) : float :=
  match coerced with
  | [] => lowest
  | number :: rest =>
      if is_nan number then nan
      else
        let lowest := if is_neg_zero number && is_pos_zero lowest then neg_zero else lowest in
        let lowest := if number <? lowest then number else lowest in
        min_loop lowest rest
  end.

Definition Math_min (args : list value) : float :=
  min_loop infinity (List.map ToNumber args).

(** [Math.max(...args)]: dually, from -Infinity, with +0 above -0. *)
Fixpoint max_loop (highest : float) (coerced : list float) : float :=
  match coerced with
  | [] => highest
  | number :: rest =>
      if is_nan number then nan
      else
        let highest := if is_pos_zero number && is_neg_zero highest then PrimFloat.zero else highest in
        let highest := if highest <? number then number else highest in
        max_loop highest rest
  end.

Definition Math_max (args : list value) : float :=
  max_loop neg_infinity (List.map ToNumber args).

(** A non-negative integer interpolated into a template literal
    ([`${index + 1}`]): its decimal digits. *)
Definition string_of_nat (n : nat) : string :=
  DecimalString.NilZero.string_of_uint (Nat.to_uint n).

(** The outcome of running a piece of code: a value, or a thrown exception. *)
Inductive error : Type :=
| TypeError.

Inductive completion (A : Type) : Type :=
| Normal (a : A)
| Throw (e : error).

Arguments Normal {A} a.
Arguments Throw {A} e.

(** [x || fallback] for [x] an array or [undefined]: every array, the empty
    one included, is truthy. *)
Definition or_else {A : Type} (x : option (list A)) (fallback : list A) : list A :=
  match x with
  | Some a => a
  | None => fallback
  end.

End JS.

(** ** The data model *)

(** Modelled from the spec: the type [InputData] is imported from
    [../types/neural-network], which is not among the sources; the spec gives
    it as [{ label: string, values: sequence<float> }], and the component
    reads exactly these two fields. *)
Record InputData : Type := {
  label : string;
  values : list float
}.

(** The object [{ avg, min, max, stdDev }] built for every dimension. *)
Record Stats : Type := {
  avg : float;
  min : float;
  max : float;
  stdDev : float
}.

(** One entry of [chartData.datasets]. *)
Module Series.
Record t : Type := {
  label : string;
  data : list JS.value;
  borderColor : string;
  backgroundColor : string;
  borderWidth : nat;
  fill : bool;
  tension : float;
  pointRadius : nat;
  pointHoverRadius : nat;
  pointBackgroundColor : string;
  pointBorderColor : string;
  pointBorderWidth : nat;
  pointHoverBackgroundColor : string;
  pointHoverBorderColor : string;
  pointHoverBorderWidth : nat
}.
End Series.

Record ChartData : Type := {
  labels : list string;
  datasets : list Series.t
}.

(** ** Text of the summary *)

Definition nl : string := String (ascii_of_nat 10) EmptyString.
Definition dquote : string := String (ascii_of_nat 34) EmptyString.

Definition low_variation_text : string :=
  "This means the numbers are close to each other, like classmates in a group photo.".

Definition spread_out_text : string :=
  "This means the numbers are spread out, like students running across a playground.".

(** [hay] begins with [needle]. *)
Fixpoint starts_with (needle hay : string) : bool :=
  match needle, hay with
  | EmptyString, _ => true
  | String _ _, EmptyString => false
  | String x needle', String y hay' => Ascii.eqb x y && starts_with needle' hay'
  end.

(** [needle] occurs in [hay]. *)
Fixpoint contains (needle hay : string) : bool :=
  starts_with needle hay ||
  match hay with
  | EmptyString => false
  | String _ rest => contains needle rest
  end.

(** [a] and [b] agree as far as both reach. *)
Fixpoint agree (a b : string) : bool :=
  match a, b with
  | String x a', String y b' => Ascii.eqb x y && agree a' b'
  | _, _ => true
  end.

(** No occurrence of [needle] starts inside [segment], whatever text
    follows the segment. *)
Fixpoint no_start (needle segment : string) : bool :=
  match segment with
  | EmptyString => true
  | String _ rest => negb (agree needle segment) && no_start needle rest
  end.

(** Every character of [s] satisfies [p]. *)
Fixpoint string_forall (p : ascii -> bool) (s : string) : bool :=
  match s with
  | EmptyString => true
  | String c rest => p c && string_forall p rest
  end.

(** The characters a number can be printed with: digits, sign, point, and
    those of [NaN], [Infinity] and the exponent notation [e+21]. *)
Definition number_char (c : ascii) : bool :=
  contains (String c EmptyString) "0123456789-.+eNaInfity".

(** ** The component *)

Section Component.

(** [Math.pow] and [Number.prototype.toFixed] belong to the engine.
    [Math.pow] is specified only up to an implementation-approximated
    result, so it is a parameter of the embedding. *)
Variable Math_pow : float -> float -> float.
Variable toFixed : float -> nat -> string.

(** [data.map(d => d.values[index])] *)
Definition column (data : list InputData) (index : nat) : list JS.value :=
  List.map (fun d => JS.index (values d) index) data.

(** The callback of [calculateStats]: the statistics of dimension [index]. *)
Definition dimensionStats (data : list InputData) (index : nat) : Stats :=
  let values := column data index in
  let avg := JS.reduce (fun a b => JS.add a b) 0 values / JS.length values in
  let min := JS.Math_min values in
  let max := JS.Math_max values in
  let stdDev :=
    PrimFloat.sqrt (JS.reduce (fun sum val => sum + Math_pow (JS.sub val avg) 2) 0 values
                    / JS.length values) in
  {| avg := avg; min := min; max := max; stdDev := stdDev |}.

(** [calculateStats]: [data[0]?.values.map(...)]; the optional chain
    short-circuits to [undefined] when [data] is empty. *)
Definition calculateStats (data : list InputData) : option (list Stats) :=
  match JS.index data 0 with
  | None => None
  | Some first => Some (JS.map (fun _ index => dimensionStats data index) (values first))
  end.

Definition isLowVariation (stat : Stats) : bool := stdDev stat <? 1.

(** The template literal of [generateSummary]. *)
Definition summaryText (stat : Stats) (index : nat) : string :=
  (nl ++ "      Input " ++ JS.string_of_nat (index + 1) ++ ":" ++ nl
   ++ "      - The average is like the " ++ dquote ++ "middle value" ++ dquote ++ " ("
   ++ toFixed (avg stat) 2
   ++ "), helping us see what most numbers look like." ++ nl
   ++ "      - The standard deviation is " ++ toFixed (stdDev stat) 2 ++ ". "
   ++ (if isLowVariation stat then low_variation_text else spread_out_text) ++ nl
   ++ "      - The range (" ++ toFixed (min stat) 2 ++ " to " ++ toFixed (max stat) 2
   ++ ") shows the smallest and largest values." ++ nl
   ++ "      ")%string.

(** [generateSummary]: [stats.map(...)], which throws a TypeError when
    [stats] is [undefined]. *)
Definition generateSummary (stats : option (list Stats)) : JS.completion (list string) :=
  match stats with
  | None => JS.Throw JS.TypeError
  | Some stats => JS.Normal (JS.map summaryText stats)
  end.

(** One entry of [chartData.datasets], for the dimension [valueIndex]. *)
Definition series (data : list InputData) (valueIndex : nat) : Series.t :=
  let hsl := ("hsl(" ++ JS.string_of_nat (valueIndex * 60) ++ ", 70%, 50%)")%string in
  {| Series.label := ("Input " ++ JS.string_of_nat (valueIndex + 1))%string;
     Series.data := List.map (fun d => JS.index (values d) valueIndex) data;
     Series.borderColor := hsl;
     Series.backgroundColor :=
       ("hsla(" ++ JS.string_of_nat (valueIndex * 60) ++ ", 70%, 50%, 0.1)")%string;
     Series.borderWidth := 2;
     Series.fill := true;
     Series.tension := 0.4;
     Series.pointRadius := 6;
     Series.pointHoverRadius := 8;
     Series.pointBackgroundColor := hsl;
     Series.pointBorderColor := "#fff";
     Series.pointBorderWidth := 2;
     Series.pointHoverBackgroundColor := "#fff";
     Series.pointHoverBorderColor := hsl;
     Series.pointHoverBorderWidth := 2 |}.

(** [chartData]: the labels, and one series per value of the first record,
    or no series when there is no first record. *)
Definition chartData (data : list InputData) : ChartData :=
  {| labels := List.map (fun d => label d) data;
     datasets :=
       JS.or_else
         (option_map (JS.map (fun _ valueIndex => series data valueIndex))
                     (option_map values (JS.index data 0)))
         [] |}.

(** What one evaluation of the component body computes before it returns its
    markup: [chartData], then [stats], then [summaries]. *)
Record Rendered : Type := {
  rendered_chart : ChartData;
  rendered_stats : option (list Stats);
  rendered_summaries : list string
}.

Definition DataVisualizer (data : list InputData) : JS.completion Rendered :=
  let chart := chartData data in
  let stats := calculateStats data in
  match generateSummary stats with
  | JS.Throw e => JS.Throw e
  | JS.Normal summaries =>
      JS.Normal {| rendered_chart := chart;
                   rendered_stats := stats;
                   rendered_summaries := summaries |}
  end.

End Component.

(** ** The same function with its reads of [data] made explicit

    [calculateStats] is a closure over the prop [data]: it reads that binding
    once for the optional chain and once more in every callback, and writes
    nothing.  Here the reads are steps of a state-passing computation over
    the closure's scope. *)

Module Run.

Record Scope : Type := { data : list InputData }.

Definition M (A : Type) : Type := Scope -> A * Scope.

Definition ret {A : Type} (a : A) : M A := fun s => (a, s).

Definition bind {A B : Type} (m : M A) (k : A -> M B) : M B :=
  fun s => let (a, s') := m s in k a s'.

Definition read_data : M (list InputData) := fun s => (data s, s).

Fixpoint map_from {A B : Type} (f : A -> nat -> M B) (i : nat) (a : list A) : M (list B) :=
  match a with
  | [] => ret []
  | x :: rest =>
      bind (f x i) (fun y => bind (map_from f (S i) rest) (fun ys => ret (y :: ys)))
  end.

Section WithPow.

Variable Math_pow : float -> float -> float.

Definition calculateStats : M (option (list Stats)) :=
  bind read_data (fun d =>
    match JS.index d 0 with
    | None => ret None
    | Some first =>
        bind (map_from
                (fun _ index =>
                   bind read_data (fun d' => ret (dimensionStats Math_pow d' index)))
                0 (values first))
             (fun stats => ret (Some stats))
    end).

End WithPow.

End Run.

(** ** The statistics as the specification words them *)

Module Formulas.

Section WithPow.

Variable pow : float -> float -> float.

(** [col] is the sequence of [record.values[i]] across all records. *)
Definition is_column (data : list InputData) (i : nat) (col : list float) : Prop :=
  Forall2 (fun d x => nth_error (values d) i = Some x) data col.

Definition sum (col : list float) : float := fold_left PrimFloat.add col 0.

Definition count (col : list float) : float := JS.length col.

Definition average (col : list float) : float := sum col / count col.

(** Population standard deviation: the divisor is the count. *)
Definition stdDeviation (col : list float) : float :=
  PrimFloat.sqrt (sum (List.map (fun x => pow (x - average col) 2) col) / count col).

(** [m] is the least element of [col]. *)
Definition is_minimum (m : float) (col : list float) : Prop :=
  In m col /\ forall x, In x col -> (m <=? x) = true.

(** [m] is the greatest element of [col]. *)
Definition is_maximum (m : float) (col : list float) : Prop :=
  In m col /\ forall x, In x col -> (x <=? m) = true.

End WithPow.

End Formulas.

(** ** Reference instances of the engine's functions *)

(** [Math.pow] at the exponent the component uses: the correctly rounded
    square, which has the values ECMA-262 fixes exactly (NaN for a NaN base,
    +0 for a zero base, +Infinity for an infinite one).  No call with another
    exponent is made; there the instance is left at NaN. *)
Definition Math_pow_ref (base exponent : float) : float :=
  if exponent =? 2 then base * base else nan.

Fixpoint zeros (k : nat) : string :=
  match k with
  | O => EmptyString
  | S k' => String "0" (zeros k')
  end.

(** The digits [m] of an integer with a point before the last [f] of them,
    padded with leading zeros to [f + 1] digits. *)
Definition with_point (m : string) (f : nat) : string :=
  if Nat.eqb f 0 then m
  else
    let m := if Nat.leb (String.length m) f
             then (zeros (f + 1 - String.length m) ++ m)%string else m in
    let k := String.length m in
    (substring 0 (k - f) m ++ "." ++ substring (k - f) f m)%string.

Definition decimal (n : Z) : string :=
  DecimalString.NilZero.string_of_uint (N.to_uint (Z.to_N n)).

(** [Number.prototype.toFixed]: the integer [n] closest to [x * 10^f], the
    larger one on a tie, printed with a point before its last [f] digits.
    This instance follows ECMA-262 for the non-finite values and below
    10^21; from there on it still prints the decimal expansion, where the
    engine switches to exponent notation. *)
Definition toFixed_ref (x : float) (fractionDigits : nat) : string :=
  match Prim2SF x with
  | S754_nan => "NaN"
  | S754_infinity s => if s then "-Infinity" else "Infinity"
  | S754_zero _ => with_point "0" fractionDigits
  | S754_finite s m e =>
      let scaled := (Zpos m * 10 ^ Z.of_nat fractionDigits)%Z in
      let n := match e with
               | Zneg p => ((2 * scaled + 2 ^ Zpos p) / 2 ^ (Zpos p + 1))%Z
               | _ => (scaled * 2 ^ e)%Z
               end in
      ((if s then "-" else "") ++ with_point (decimal n) fractionDigits)%string
  end.

(** ** Sample inputs *)

Definition record (l : string) (v : list float) : InputData :=
  {| label := l; values := v |}.

(** The dataset of the specification's worked example. *)
Definition example_ab : list InputData :=
  [record "a" [1; 2]; record "b" [3; 4]].

(** Three records holding one tenth each. *)
Definition three_tenths : list InputData :=
  [record "a" [0.1]; record "b" [0.1]; record "c" [0.1]].

(** Three records of whole numbers whose averages, 7/3 and 14/3, are not
    binary64 numbers. *)
Definition whole_three : list InputData :=
  [record "a" [1; 6]; record "b" [2; 5]; record "c" [4; 3]].

(** One record with two finite values. *)
Definition one_record : list InputData := [record "a" [1; 2]].

(** One record holding +Infinity. *)
Definition one_infinite : list InputData := [record "a" [infinity]].

(** Two records holding the largest finite number. *)
Definition two_largest : list InputData :=
  [record "a" [0x1.fffffffffffffp+1023]; record "b" [0x1.fffffffffffffp+1023]].

(** Statistics with a deviation of one half, and of two. *)
Definition stat_half : Stats := {| avg := 2; min := 1; max := 3; stdDev := 0.5 |}.
Definition stat_two : Stats := {| avg := 2; min := 0; max := 4; stdDev := 2 |}.

(** A second record shorter than the first. *)
Definition ragged : list InputData :=
  [record "a" [1; 2]; record "b" [3]].

(** A second record longer than the first. *)
Definition longer_second : list InputData :=
  [record "a" [1]; record "b" [3; 4]].

(** ** The statistics panel

    The markup maps [stats] to one card per entry ([stats?.map]: nothing is
    rendered for [undefined]); a card shows a title and the statistics to
    three decimal places. *)

Module Card.
Record t : Type := {
  title : string;
  average : string;
  stdDeviation : string;
  range : string
}.
End Card.

Section Panel.

Variable toFixed : float -> nat -> string.

Definition statCard (stat : Stats) (index : nat) : Card.t :=
  {| Card.title := ("Input " ++ JS.string_of_nat (index + 1) ++ " Statistics")%string;
     Card.average := toFixed (avg stat) 3;
     Card.stdDeviation := toFixed (stdDev stat) 3;
     Card.range :=
       ("[" ++ toFixed (min stat) 3 ++ ", " ++ toFixed (max stat) 3 ++ "]")%string |}.

Definition statisticsPanel (stats : option (list Stats)) : list Card.t :=
  match stats with
  | None => []
  | Some stats => JS.map statCard stats
  end.

End Panel.

(** ** Columns that hold a NaN *)

(** Some element of the column is NaN once coerced to a number: a NaN
    value, or [undefined] read past the end of a record. *)
Definition poisoned (values : list JS.value) : bool :=
  existsb (fun v => is_nan (JS.ToNumber v)) values.

(** The NaN entry of the statistics. *)
Definition nan_stats : Stats := {| avg := nan; min := nan; max := nan; stdDev := nan |}.

(** ** Further sample inputs *)

(** The worked example with its records in the other order. *)
Definition example_ba : list InputData :=
  [record "b" [3; 4]; record "a" [1; 2]].

(** The worked example under other labels. *)
Definition example_xy : list InputData :=
  [record "x" [1; 2]; record "y" [3; 4]].

(** ** Numbers in units of 2^-1074

    Every finite binary64 number is a whole multiple of 2^-1074, the least
    positive one; [scaled] and [units] give that multiple. *)

Definition mag (m : positive) (e : Z) : Z := (Zpos m * 2 ^ (e + 1074))%Z.

Definition scaled (X : spec_float) : Z :=
  match X with
  | S754_finite s m e => cond_Zopp s (mag m e)
  | _ => 0%Z
  end.

(** Zero or finite: neither NaN nor an infinity. *)
Definition is_real (X : spec_float) : Prop :=
  match X with
  | S754_zero _ | S754_finite _ _ _ => True
  | _ => False
  end.

(** [P] units is the magnitude of a binary64 number. *)
Definition repr_mag (P : Z) : Prop :=
  P = 0%Z \/ exists m e, bounded prec emax m e = true /\ P = mag m e.

Definition repr (N : Z) : Prop := repr_mag (Z.abs N).

Definition units (x : float) : Z := scaled (Prim2SF x).

(** [N] units is a finite binary64 number. *)
Definition representable (N : Z) : Prop :=
  exists x : float, is_finite x = true /\ units x = N.

(** [x] is finite, and so is each of its multiples up to [n] times, without
    rounding: [k * x] is a binary64 number for every [k] from 1 to [n]. *)
Definition exact_multiples (n : nat) (x : float) : Prop :=
  is_finite x = true
  /\ forall k : nat, (1 <= k <= n)%nat -> representable (Z.of_nat k * units x).

(* ================================================================== *)
(** * Part II: properties *)
(* ================================================================== *)

(** ** Order of binary64 values *)

Module FloatOrder.

Ltac cmp_cases :=
  repeat match goal with
  | |- context [Z.compare ?a ?b] => destruct (Z.compare_spec a b)
  | H : context [Z.compare ?a ?b] |- _ => destruct (Z.compare_spec a b)
  | |- context [Pos.compare ?a ?b] => destruct (Pos.compare_spec a b)
  | H : context [Pos.compare ?a ?b] |- _ => destruct (Pos.compare_spec a b)
  end.

Ltac sf_cases :=
  cbn in *; change (Pos.compare_cont Eq) with Pos.compare in *;
  try discriminate; try reflexivity; try congruence;
  cmp_cases; cbn in *; subst; try discriminate; try reflexivity; try lia.

Lemma SFcompare_refl (a : spec_float) :
  a <> S754_nan -> SFcompare a a = Some Eq.
Proof.
  destruct a as [s | s | | s m e]; intros Hn; try congruence;
    destruct s; cbn; try reflexivity;
    rewrite Z.compare_refl;
    change (Pos.compare_cont Eq) with Pos.compare;
    rewrite Pos.compare_refl; reflexivity.
Qed.

Lemma SFleb_trans (a b c : spec_float) :
  SFleb a b = true -> SFleb b c = true -> SFleb a c = true.
Proof.
  unfold SFleb.
  destruct a as [sa | sa | | sa ma ea], b as [sb | sb | | sb mb eb],
    c as [sc | sc | | sc mc ec];
    try destruct sa; try destruct sb; try destruct sc;
    intros H1 H2; sf_cases.
Qed.

Lemma SFltb_leb (a b : spec_float) : SFltb a b = true -> SFleb a b = true.
Proof.
  unfold SFltb, SFleb. destruct (SFcompare a b) as [[ | | ] | ]; congruence.
Qed.

Lemma SFleb_total (a b : spec_float) :
  a <> S754_nan -> b <> S754_nan -> SFltb a b = false -> SFleb b a = true.
Proof.
  unfold SFltb, SFleb.
  destruct a as [sa | sa | | sa ma ea], b as [sb | sb | | sb mb eb];
    try destruct sa; try destruct sb;
    intros Ha Hb H; try congruence; sf_cases.
Qed.

Lemma is_nan_SF (x : float) : is_nan x = false <-> Prim2SF x <> S754_nan.
Proof.
  unfold is_nan. rewrite FloatAxioms.eqb_spec. unfold SFeqb. split.
  - intros H E. rewrite E in H. discriminate H.
  - intros H. rewrite (SFcompare_refl _ H). reflexivity.
Qed.

Lemma nan_is_nan (x : float) : is_nan x = true -> x = nan.
Proof.
  intros H. apply Prim2SF_inj.
  destruct (Prim2SF x) eqn:E; try reflexivity;
    assert (Hx : is_nan x = false) by (apply is_nan_SF; rewrite E; discriminate);
    congruence.
Qed.

Lemma leb_refl (x : float) : is_nan x = false -> (x <=? x) = true.
Proof.
  intros H. rewrite FloatAxioms.leb_spec. unfold SFleb.
  rewrite SFcompare_refl by (apply is_nan_SF; exact H). reflexivity.
Qed.

Lemma leb_trans (x y z : float) :
  (x <=? y) = true -> (y <=? z) = true -> (x <=? z) = true.
Proof. rewrite !FloatAxioms.leb_spec. apply SFleb_trans. Qed.

Lemma ltb_leb (x y : float) : (x <? y) = true -> (x <=? y) = true.
Proof. rewrite FloatAxioms.ltb_spec, FloatAxioms.leb_spec. apply SFltb_leb. Qed.

Lemma not_ltb_leb (x y : float) :
  is_nan x = false -> is_nan y = false -> (x <? y) = false -> (y <=? x) = true.
Proof.
  rewrite FloatAxioms.ltb_spec, FloatAxioms.leb_spec. intros Hx Hy.
  apply SFleb_total; apply is_nan_SF; assumption.
Qed.

Lemma leb_not_nan (x y : float) :
  (x <=? y) = true -> is_nan x = false /\ is_nan y = false.
Proof.
  rewrite FloatAxioms.leb_spec. unfold SFleb. intros H.
  split; apply is_nan_SF; intros E; rewrite E in H;
    [ | destruct (Prim2SF x)]; discriminate H.
Qed.

(** Nothing but +Infinity is at or above +Infinity, and nothing but
    -Infinity at or below -Infinity. *)
Lemma infinity_leb (x : float) : (infinity <=? x) = true -> x = infinity.
Proof.
  rewrite FloatAxioms.leb_spec. change (Prim2SF infinity) with (S754_infinity false).
  intros H. apply Prim2SF_inj. change (Prim2SF infinity) with (S754_infinity false).
  destruct (Prim2SF x) as [s | s | | s m e]; try destruct s; cbn in H;
    try discriminate H; reflexivity.
Qed.

Lemma leb_neg_infinity (x : float) : (x <=? neg_infinity) = true -> x = neg_infinity.
Proof.
  rewrite FloatAxioms.leb_spec. change (Prim2SF neg_infinity) with (S754_infinity true).
  intros H. apply Prim2SF_inj. change (Prim2SF neg_infinity) with (S754_infinity true).
  destruct (Prim2SF x) as [s | s | | s m e]; try destruct s; cbn in H;
    try discriminate H; reflexivity.
Qed.

End FloatOrder.

(** ** [Math.min] and [Math.max] on numbers that are not NaN *)

Module MinMax.

Import FloatOrder.

Lemma is_neg_zero_eq (x : float) : JS.is_neg_zero x = true -> x = neg_zero.
Proof. apply FloatAxioms.Leibniz.eqb_spec. Qed.

Lemma is_pos_zero_eq (x : float) : JS.is_pos_zero x = true -> x = PrimFloat.zero.
Proof. apply FloatAxioms.Leibniz.eqb_spec. Qed.

(** The loop of [Math.min] returns a lower bound of what it has seen, taken
    from the start value or from the numbers. *)
Lemma min_loop_lower (coerced : list float) :
  forall lowest,
    Forall (fun x => is_nan x = false) coerced ->
    is_nan lowest = false ->
    (JS.min_loop lowest coerced <=? lowest) = true
    /\ (forall x, In x coerced -> (JS.min_loop lowest coerced <=? x) = true)
    /\ (JS.min_loop lowest coerced = lowest \/ In (JS.min_loop lowest coerced) coerced).
Proof.
  induction coerced as [ | number rest IH]; intros lowest Hall Hl; cbn [JS.min_loop].
  - split; [apply leb_refl; exact Hl | split; [intros x [] | left; reflexivity]].
  - inversion Hall as [ | ? ? Hn Hrest]; subst. rewrite Hn.
    set (l1 := if JS.is_neg_zero number && JS.is_pos_zero lowest then neg_zero else lowest).
    assert (A1 : is_nan l1 = false /\ (l1 <=? lowest) = true /\ (l1 = lowest \/ l1 = number)).
    { unfold l1. destruct (JS.is_neg_zero number && JS.is_pos_zero lowest) eqn:E.
      - apply andb_prop in E. destruct E as [E1 E2].
        apply is_neg_zero_eq in E1. apply is_pos_zero_eq in E2. subst.
        repeat split; auto.
      - repeat split; auto. apply leb_refl; exact Hl. }
    destruct A1 as (N1 & L1 & M1).
    set (l2 := if number <? l1 then number else l1).
    assert (A2 : is_nan l2 = false /\ (l2 <=? l1) = true /\ (l2 <=? number) = true
                 /\ (l2 = l1 \/ l2 = number)).
    { unfold l2. destruct (number <? l1) eqn:E.
      - repeat split; auto. apply ltb_leb; exact E. apply leb_refl; exact Hn.
      - repeat split; auto. apply leb_refl; exact N1. apply not_ltb_leb; assumption. }
    destruct A2 as (N2 & L2 & L2n & M2).
    destruct (IH l2 Hrest N2) as (R1 & R2 & R3).
    split; [ | split].
    + eapply leb_trans; [exact R1 | ]. eapply leb_trans; [exact L2 | exact L1].
    + intros x [Hx | Hx].
      * subst x. eapply leb_trans; [exact R1 | exact L2n].
      * apply R2; exact Hx.
    + destruct R3 as [R3 | R3]; [ | right; right; exact R3].
      rewrite R3. destruct M2 as [M2 | M2]; [ | right; left; symmetry; exact M2].
      rewrite M2. destruct M1 as [M1 | M1]; [left; exact M1 | ].
      right; left; symmetry; exact M1.
Qed.

(** Dually for [Math.max]. *)
Lemma max_loop_upper (coerced : list float) :
  forall highest,
    Forall (fun x => is_nan x = false) coerced ->
    is_nan highest = false ->
    (highest <=? JS.max_loop highest coerced) = true
    /\ (forall x, In x coerced -> (x <=? JS.max_loop highest coerced) = true)
    /\ (JS.max_loop highest coerced = highest \/ In (JS.max_loop highest coerced) coerced).
Proof.
  induction coerced as [ | number rest IH]; intros highest Hall Hh; cbn [JS.max_loop].
  - split; [apply leb_refl; exact Hh | split; [intros x [] | left; reflexivity]].
  - inversion Hall as [ | ? ? Hn Hrest]; subst. rewrite Hn.
    set (h1 := if JS.is_pos_zero number && JS.is_neg_zero highest
               then PrimFloat.zero else highest).
    assert (A1 : is_nan h1 = false /\ (highest <=? h1) = true /\ (h1 = highest \/ h1 = number)).
    { unfold h1. destruct (JS.is_pos_zero number && JS.is_neg_zero highest) eqn:E.
      - apply andb_prop in E. destruct E as [E1 E2].
        apply is_pos_zero_eq in E1. apply is_neg_zero_eq in E2. subst.
        repeat split; auto.
      - repeat split; auto. apply leb_refl; exact Hh. }
    destruct A1 as (N1 & L1 & M1).
    set (h2 := if h1 <? number then number else h1).
    assert (A2 : is_nan h2 = false /\ (h1 <=? h2) = true /\ (number <=? h2) = true
                 /\ (h2 = h1 \/ h2 = number)).
    { unfold h2. destruct (h1 <? number) eqn:E.
      - repeat split; auto. apply ltb_leb; exact E. apply leb_refl; exact Hn.
      - repeat split; auto. apply leb_refl; exact N1. apply not_ltb_leb; assumption. }
    destruct A2 as (N2 & L2 & L2n & M2).
    destruct (IH h2 Hrest N2) as (R1 & R2 & R3).
    split; [ | split].
    + eapply leb_trans; [exact L1 | ]. eapply leb_trans; [exact L2 | exact R1].
    + intros x [Hx | Hx].
      * subst x. eapply leb_trans; [exact L2n | exact R1].
      * apply R2; exact Hx.
    + destruct R3 as [R3 | R3]; [ | right; right; exact R3].
      rewrite R3. destruct M2 as [M2 | M2]; [ | right; left; symmetry; exact M2].
      rewrite M2. destruct M1 as [M1 | M1]; [left; exact M1 | ].
      right; left; symmetry; exact M1.
Qed.

Lemma map_ToNumber_Some (col : list float) :
  List.map JS.ToNumber (List.map Some col) = col.
Proof.
  induction col as [ | x col IH]; cbn; [reflexivity | rewrite IH; reflexivity].
Qed.

(** On a non-empty column without NaN, [Math.min] returns its least element
    and [Math.max] its greatest. *)
Lemma Math_min_is_minimum (col : list float) :
  col <> [] ->
  Forall (fun x => is_nan x = false) col ->
  Formulas.is_minimum (JS.Math_min (List.map Some col)) col.
Proof.
  intros Hne Hall. unfold JS.Math_min. rewrite map_ToNumber_Some.
  destruct (min_loop_lower col infinity Hall eq_refl) as (_ & R2 & R3).
  split; [ | exact R2].
  destruct R3 as [R3 | R3]; [ | exact R3].
  destruct col as [ | x0 rest]; [congruence | ].
  assert (Hx : (JS.min_loop infinity (x0 :: rest) <=? x0) = true) by (apply R2; left; reflexivity).
  rewrite R3 in Hx. apply infinity_leb in Hx. rewrite R3. left. exact Hx.
Qed.

Lemma Math_max_is_maximum (col : list float) :
  col <> [] ->
  Forall (fun x => is_nan x = false) col ->
  Formulas.is_maximum (JS.Math_max (List.map Some col)) col.
Proof.
  intros Hne Hall. unfold JS.Math_max. rewrite map_ToNumber_Some.
  destruct (max_loop_upper col neg_infinity Hall eq_refl) as (_ & R2 & R3).
  split; [ | exact R2].
  destruct R3 as [R3 | R3]; [ | exact R3].
  destruct col as [ | x0 rest]; [congruence | ].
  assert (Hx : (x0 <=? JS.max_loop neg_infinity (x0 :: rest)) = true) by (apply R2; left; reflexivity).
  rewrite R3 in Hx. apply leb_neg_infinity in Hx. rewrite R3. left. exact Hx.
Qed.

End MinMax.

(** ** Arrays *)

Module ArrayFacts.

Lemma map_from_length {A B : Type} (f : A -> nat -> B) (a : list A) :
  forall i, List.length (JS.map_from f i a) = List.length a.
Proof.
  induction a as [ | x a IH]; intros i; cbn; [reflexivity | rewrite IH; reflexivity].
Qed.

Lemma map_from_nth {A B : Type} (f : A -> nat -> B) (a : list A) :
  forall i k x, nth_error a k = Some x ->
                nth_error (JS.map_from f i a) k = Some (f x (i + k)%nat).
Proof.
  induction a as [ | y a IH]; intros i k x H.
  - destruct k; discriminate H.
  - destruct k as [ | k]; cbn in *.
    + injection H as ->. rewrite Nat.add_0_r. reflexivity.
    + rewrite (IH (S i) k x H). f_equal. f_equal. lia.
Qed.

Lemma map_length {A B : Type} (f : A -> nat -> B) (a : list A) :
  List.length (JS.map f a) = List.length a.
Proof. apply map_from_length. Qed.

Lemma map_nth {A B : Type} (f : A -> nat -> B) (a : list A) (k : nat) (x : A) :
  nth_error a k = Some x -> nth_error (JS.map f a) k = Some (f x k).
Proof. intros H. unfold JS.map. rewrite (map_from_nth f a 0 k x H). reflexivity. Qed.

Lemma nth_error_in_range {A : Type} (a : list A) (k : nat) :
  k < List.length a -> exists x, nth_error a k = Some x.
Proof.
  intros H. destruct (nth_error a k) eqn:E; [eauto | ].
  apply nth_error_None in E. lia.
Qed.

(** With every record at least [i + 1] values long, the column of dimension
    [i] holds numbers only. *)
Lemma column_in_bounds (data : list InputData) (i : nat) :
  Forall (fun d => i < List.length (values d)) data ->
  exists col, Formulas.is_column data i col /\ column data i = List.map Some col.
Proof.
  induction data as [ | d data IH]; intros H.
  - exists []. split; [constructor | reflexivity].
  - inversion H as [ | ? ? Hd Hrest]; subst.
    destruct (IH Hrest) as (col & Hc & E).
    destruct (nth_error_in_range (values d) i Hd) as (x & Hx).
    exists (x :: col). split; [constructor; assumption | ].
    cbn. unfold JS.index. rewrite Hx, <- E. reflexivity.
Qed.

Lemma is_column_length (data : list InputData) (i : nat) (col : list float) :
  Formulas.is_column data i col -> List.length col = List.length data.
Proof. intros H. symmetry. exact (Forall2_length H). Qed.

Lemma uniform_in_bounds (data : list InputData) (D i : nat) :
  Forall (fun d => List.length (values d) = D) data -> i < D ->
  Forall (fun d => i < List.length (values d)) data.
Proof.
  intros H Hi. eapply Forall_impl; [ | exact H]. cbn. intros d Hd. lia.
Qed.

End ArrayFacts.

(** ** The statistics *)

Section Statistics.

Variable Math_pow : float -> float -> float.
Variable toFixed : float -> nat -> string.

Import ArrayFacts.

(** C1: on the empty dataset [calculateStats] returns [undefined], not an
    empty array, and [generateSummary] then throws a TypeError when it calls
    [map] on it, so the evaluation of the component fails. *)
Theorem empty_dataset_throws :
  calculateStats Math_pow [] = None
  /\ generateSummary toFixed (calculateStats Math_pow []) = JS.Throw JS.TypeError
  /\ DataVisualizer Math_pow toFixed [] = JS.Throw JS.TypeError.
Proof. repeat split. Qed.

(** With a first record, [calculateStats] returns an array with one entry
    per value of that record, entry [i] being the statistics of dimension
    [i]. *)
Lemma calculateStats_first (first : InputData) (rest : list InputData) :
  exists stats,
    calculateStats Math_pow (first :: rest) = Some stats
    /\ List.length stats = List.length (values first)
    /\ forall i, i < List.length (values first) ->
                 nth_error stats i = Some (dimensionStats Math_pow (first :: rest) i).
Proof.
  eexists. split; [reflexivity | split].
  - apply map_length.
  - intros i Hi. destruct (nth_error_in_range _ _ Hi) as (x & Hx).
    exact (map_nth _ _ _ _ Hx).
Qed.

(** C3: for a non-empty dataset whose records all have [D] values,
    [calculateStats] returns exactly [D] statistics, the one at index [i]
    being that of dimension [i]. *)
Theorem calculateStats_one_per_dimension (data : list InputData) (D : nat) :
  data <> [] ->
  Forall (fun d => List.length (values d) = D) data ->
  exists stats,
    calculateStats Math_pow data = Some stats
    /\ List.length stats = D
    /\ forall i, i < D -> nth_error stats i = Some (dimensionStats Math_pow data i).
Proof.
  intros Hne Hu. destruct data as [ | first rest]; [congruence | ].
  inversion Hu as [ | ? ? Hf _]; subst.
  exact (calculateStats_first first rest).
Qed.

(** The two reductions of the callback, on a column of numbers. *)
Lemma reduce_add (col : list float) :
  forall acc, JS.reduce (fun a b => JS.add a b) acc (List.map Some col)
              = fold_left PrimFloat.add col acc.
Proof.
  unfold JS.reduce. induction col as [ | x col IH]; intros acc; cbn;
    [reflexivity | apply IH].
Qed.

Lemma reduce_squares (col : list float) (mean : float) :
  forall acc,
    JS.reduce (fun sum val => sum + Math_pow (JS.sub val mean) 2) acc (List.map Some col)
    = fold_left PrimFloat.add (List.map (fun x => Math_pow (x - mean) 2) col) acc.
Proof.
  unfold JS.reduce. induction col as [ | x col IH]; intros acc; cbn;
    [reflexivity | apply IH].
Qed.

Lemma length_map_Some (col : list float) : JS.length (List.map Some col) = JS.length col.
Proof. unfold JS.length. rewrite length_map. reflexivity. Qed.

(** On a column of numbers the callback computes the formulas of the
    specification. *)
Lemma dimensionStats_formulas (data : list InputData) (i : nat) (col : list float) :
  column data i = List.map Some col ->
  avg (dimensionStats Math_pow data i) = Formulas.average col
  /\ stdDev (dimensionStats Math_pow data i) = Formulas.stdDeviation Math_pow col
  /\ min (dimensionStats Math_pow data i) = JS.Math_min (List.map Some col)
  /\ max (dimensionStats Math_pow data i) = JS.Math_max (List.map Some col).
Proof.
  intros E. unfold dimensionStats. rewrite E. cbn [avg stdDev min max].
  unfold Formulas.stdDeviation, Formulas.average, Formulas.sum, Formulas.count.
  rewrite reduce_add, reduce_squares, length_map_Some. repeat split.
Qed.

(** C2: for a non-empty dataset whose records all have [D] values and a
    dimension [i < D], the statistics computed at index [i] are, over the
    column [col] of the values at [i]: the sum divided by the count, the
    least and the greatest element (the column holding no NaN, whose order
    the specification leaves open), and the square root of the mean squared
    deviation from the average, the divisor being the count. *)
Theorem calculateStats_formulas (data : list InputData) (D i : nat) :
  data <> [] ->
  Forall (fun d => List.length (values d) = D) data ->
  i < D ->
  exists stats st col,
    calculateStats Math_pow data = Some stats
    /\ nth_error stats i = Some st
    /\ Formulas.is_column data i col
    /\ avg st = Formulas.average col
    /\ stdDev st = Formulas.stdDeviation Math_pow col
    /\ (Forall (fun x => is_nan x = false) col ->
        Formulas.is_minimum (min st) col /\ Formulas.is_maximum (max st) col).
Proof.
  intros Hne Hu Hi.
  assert (Hstats : exists stats, calculateStats Math_pow data = Some stats
                     /\ nth_error stats i = Some (dimensionStats Math_pow data i)).
  { destruct data as [ | first rest]; [congruence | ].
    inversion Hu as [ | ? ? Hf _]; subst.
    destruct (calculateStats_first first rest) as (stats & Hs & _ & Hnth). eauto. }
  destruct Hstats as (stats & Hs & Hnth).
  destruct (column_in_bounds data i (uniform_in_bounds data D i Hu Hi)) as (col & Hc & E).
  destruct (dimensionStats_formulas data i col E) as (Ha & Hd & Hmin & Hmax).
  exists stats, (dimensionStats Math_pow data i), col.
  repeat (split; [solve [auto] | ]).
  intros Hnan.
  assert (Hcol : col <> []).
  { intros ->. apply is_column_length in Hc. destruct data; [congruence | discriminate Hc]. }
  rewrite Hmin, Hmax. split.
  - apply MinMax.Math_min_is_minimum; assumption.
  - apply MinMax.Math_max_is_maximum; assumption.
Qed.

(** A record with fewer values than the dimension count puts [undefined]
    into the column at the index just past its end. *)
Lemma short_record_column (data : list InputData) (d : InputData) :
  In d data ->
  JS.index (values d) (List.length (values d)) = None
  /\ In None (column data (List.length (values d))).
Proof.
  intros Hin.
  assert (E : JS.index (values d) (List.length (values d)) = None)
    by (apply nth_error_None; lia).
  split; [exact E | ].
  unfold column. rewrite <- E.
  exact (in_map (fun d0 => JS.index (values d0) (List.length (values d))) data d Hin).
Qed.

(** Every read of [calculateStats] is inside its record exactly when no
    record has fewer values than the first. *)
Lemma reads_in_bounds_iff (first : InputData) (rest : list InputData) :
  (forall index, index < List.length (values first) ->
                 ~ In None (column (first :: rest) index))
  <-> Forall (fun d => List.length (values first) <= List.length (values d)) rest.
Proof.
  split.
  - intros H. apply Forall_forall. intros d Hd.
    destruct (Nat.le_gt_cases (List.length (values first)) (List.length (values d)))
      as [Hle | Hgt]; [exact Hle | exfalso].
    apply (H (List.length (values d)) Hgt).
    apply short_record_column. right. exact Hd.
  - intros H index Hi Hn. unfold column in Hn. apply in_map_iff in Hn.
    destruct Hn as (d & Hd & Hin). apply nth_error_None in Hd.
    destruct Hin as [<- | Hin]; [lia | ].
    rewrite Forall_forall in H. specialize (H d Hin). lia.
Qed.

(** C9, amended: the number of dimensions is that of the first record; a
    record after the first with fewer values than the first is read outside
    its bounds at some dimension, the read yielding [undefined]; and every
    read is inside its record exactly when no record after the first has
    fewer values than the first.  Records of one length satisfy that
    condition, and so do later records longer than the first. *)
Theorem shorter_record_read_out_of_bounds
        (first : InputData) (rest : list InputData) :
  (exists stats,
      calculateStats Math_pow (first :: rest) = Some stats
      /\ List.length stats = List.length (values first))
  /\ (forall d,
        In d rest ->
        List.length (values d) < List.length (values first) ->
        exists index,
          index < List.length (values first)
          /\ JS.index (values d) index = None
          /\ In None (column (first :: rest) index))
  /\ ((forall index, index < List.length (values first) ->
                     ~ In None (column (first :: rest) index))
      <-> Forall (fun d => List.length (values first) <= List.length (values d)) rest)
  /\ (Forall (fun d => List.length (values d) = List.length (values first)) rest ->
      forall index, index < List.length (values first) ->
                    ~ In None (column (first :: rest) index)).
Proof.
  split; [ | split; [ | split]].
  - destruct (calculateStats_first first rest) as (stats & Hs & Hl & _). eauto.
  - intros d Hin Hlt. exists (List.length (values d)). split; [exact Hlt | ].
    apply short_record_column. right. exact Hin.
  - exact (reads_in_bounds_iff first rest).
  - intros Hu. apply (reads_in_bounds_iff first rest).
    eapply Forall_impl; [ | exact Hu]. intros d Hd. cbv beta in Hd. lia.
Qed.

End Statistics.

(** ** The chart data *)

Section Chart.

Import ArrayFacts.

(** C10: for the empty dataset [chartData] has no labels and no series;
    being a total function, it yields a value on every input. *)
Theorem chartData_empty :
  chartData [] = {| labels := []; datasets := [] |}.
Proof. reflexivity. Qed.

Lemma chartData_datasets (first : InputData) (rest : list InputData) :
  datasets (chartData (first :: rest))
  = JS.map (fun _ valueIndex => series (first :: rest) valueIndex) (values first).
Proof. reflexivity. Qed.

(** C8: for a non-empty dataset whose records all have [D] values, the
    chart data has the record labels in dataset order and [D] series; series
    [i] is named after [i + 1] and holds, at each position [j], the value
    [values[i]] of the record whose label stands at position [j]. *)
Theorem chartData_series (data : list InputData) (D : nat) :
  data <> [] ->
  Forall (fun d => List.length (values d) = D) data ->
  labels (chartData data) = List.map label data
  /\ List.length (datasets (chartData data)) = D
  /\ forall i, i < D ->
       exists s,
         nth_error (datasets (chartData data)) i = Some s
         /\ Series.label s = ("Input " ++ JS.string_of_nat (i + 1))%string
         /\ List.length (Series.data s) = List.length data
         /\ forall j d, nth_error data j = Some d ->
              nth_error (labels (chartData data)) j = Some (label d)
              /\ exists v, nth_error (values d) i = Some v
                           /\ nth_error (Series.data s) j = Some (Some v).
Proof.
  intros Hne Hu. destruct data as [ | first rest]; [congruence | ].
  split; [reflexivity | ].
  rewrite chartData_datasets.
  assert (Hf : List.length (values first) = D) by (inversion Hu; assumption).
  split; [rewrite map_length; exact Hf | ].
  intros i Hi.
  destruct (nth_error_in_range (values first) i) as (x & Hx); [lia | ].
  exists (series (first :: rest) i).
  split; [exact (map_nth _ _ _ _ Hx) | ].
  split; [reflexivity | ].
  split; [apply length_map | ].
  intros j d Hj.
  split; [exact (map_nth_error label j (first :: rest) Hj) | ].
  assert (Hd : List.length (values d) = D).
  { rewrite Forall_forall in Hu. apply Hu. exact (nth_error_In _ _ Hj). }
  destruct (nth_error_in_range (values d) i) as (v & Hv); [lia | ].
  exists v. split; [exact Hv | ].
  change (Series.data (series (first :: rest) i))
    with (List.map (fun d0 => JS.index (values d0) i) (first :: rest)).
  rewrite (map_nth_error _ j (first :: rest) Hj).
  unfold JS.index. rewrite Hv. reflexivity.
Qed.

End Chart.

(** ** Reads of [data] *)

Section Purity.

Variable Math_pow : float -> float -> float.

Lemma run_map_from (g : list InputData -> nat -> Stats) (a : list float) :
  forall i s,
    Run.map_from (fun _ index => Run.bind Run.read_data (fun d => Run.ret (g d index))) i a s
    = (JS.map_from (fun _ index => g (Run.data s) index) i a, s).
Proof.
  induction a as [ | x a IH]; intros i s; cbn.
  - reflexivity.
  - unfold Run.bind at 1. cbn. unfold Run.bind at 1. rewrite IH. reflexivity.
Qed.

(** Run in a scope, [calculateStats] returns what the function of [data]
    returns and leaves the scope as it was. *)
Lemma run_calculateStats (s : Run.Scope) :
  Run.calculateStats Math_pow s = (calculateStats Math_pow (Run.data s), s).
Proof.
  unfold Run.calculateStats, calculateStats, Run.bind at 1, Run.read_data at 1.
  destruct (JS.index (Run.data s) 0) as [first | ]; [ | reflexivity].
  unfold Run.bind at 1. rewrite run_map_from. reflexivity.
Qed.

(** C5: two calls of [calculateStats] in a row, from any scope, return the
    same statistics, value for value, and neither changes the scope. *)
Theorem calculateStats_pure (s : Run.Scope) :
  let first_call := Run.calculateStats Math_pow s in
  let second_call := Run.calculateStats Math_pow (snd first_call) in
  fst first_call = fst second_call
  /\ snd first_call = s
  /\ snd second_call = s.
Proof.
  cbv zeta. rewrite !run_calculateStats. cbn [fst snd].
  rewrite ?run_calculateStats. repeat split.
Qed.

End Purity.

(** ** Exact operations on binary64 values *)

Module FloatExact.

Local Open Scope Z_scope.

Lemma div_eucl_pow2 (a k : Z) :
  0 <= k -> Z.div_eucl (a * 2 ^ k) (2 ^ k) = (a, 0).
Proof.
  intros Hk.
  assert (Hp : 0 < 2 ^ k) by (apply Z.pow_pos_nonneg; lia).
  generalize (Z.div_eucl_eq (a * 2 ^ k) (2 ^ k) ltac:(lia)).
  generalize (Z.mod_pos_bound (a * 2 ^ k) (2 ^ k) Hp).
  unfold Z.modulo. destruct (Z.div_eucl (a * 2 ^ k) (2 ^ k)) as [q r].
  intros Hr He. assert (a = q) by nia. subst q. f_equal. lia.
Qed.

(** A valid mantissa and exponent: subnormal at the least exponent, or
    normal with 53 digits. *)
Lemma canonical_cases (m : positive) (e : Z) :
  bounded prec emax m e = true ->
  e <= 971 /\
  ((e = -1074 /\ Zpos (digits2_pos m) <= 53) \/ (-1074 < e /\ Zpos (digits2_pos m) = 53)).
Proof.
  unfold bounded, canonical_mantissa, fexp, SpecFloat.emin, prec, emax.
  intros H. apply andb_prop in H. destruct H as [H1 H2].
  apply Z.eqb_eq in H1. apply Z.leb_le in H2. lia.
Qed.

Lemma fexp_eq (x : Z) : fexp prec emax x = Z.max (x - 53) (-1074).
Proof. reflexivity. Qed.

(** Rounding a valid mantissa returns it. *)
Lemma round_exact (s : bool) (m : positive) (e : Z) :
  bounded prec emax m e = true ->
  binary_round_aux prec emax s (Zpos m) e loc_Exact = S754_finite s m e.
Proof.
  intros Hb. destruct (canonical_cases m e Hb) as (He & Hc).
  unfold binary_round_aux, shr_fexp.
  change (Zdigits2 (Zpos m)) with (Zpos (digits2_pos m)).
  rewrite fexp_eq.
  replace (Z.max (Zpos (digits2_pos m) + e - 53) (-1074) - e) with 0 by lia.
  cbn [shr shr_record_of_loc shr_m loc_of_shr_record round_nearest_even].
  change (Zdigits2 (Zpos m)) with (Zpos (digits2_pos m)).
  rewrite fexp_eq.
  replace (Z.max (Zpos (digits2_pos m) + e - 53) (-1074) - e) with 0 by lia.
  cbn [shr shr_record_of_loc shr_m].
  replace (e <=? emax - prec) with true; [reflexivity | ].
  symmetry. apply Z.leb_le. unfold emax, prec. lia.
Qed.

(** Rounding twice a normal mantissa, one exponent lower, returns it too. *)
Lemma round_exact_double (s : bool) (m : positive) (e : Z) :
  bounded prec emax m e = true ->
  -1074 < e ->
  binary_round_aux prec emax s (Zpos m~0) (e - 1) loc_Exact = S754_finite s m e.
Proof.
  intros Hb Hn. destruct (canonical_cases m e Hb) as (He & Hc).
  unfold binary_round_aux, shr_fexp.
  change (Zdigits2 (Zpos m~0)) with (Zpos (Pos.succ (digits2_pos m))).
  rewrite fexp_eq.
  replace (Z.max (Zpos (Pos.succ (digits2_pos m)) + (e - 1) - 53) (-1074) - (e - 1))
    with 1 by lia.
  cbn [shr shr_record_of_loc].
  change (SpecFloat.iter_pos shr_1 1 {| shr_m := Zpos m~0; shr_r := false; shr_s := false |})
    with {| shr_m := Zpos m; shr_r := false; shr_s := false |}.
  cbn [shr_m loc_of_shr_record round_nearest_even].
  replace (e - 1 + 1) with e by lia.
  change (Zdigits2 (Zpos m)) with (Zpos (digits2_pos m)).
  rewrite fexp_eq.
  replace (Z.max (Zpos (digits2_pos m) + e - 53) (-1074) - e) with 0 by lia.
  cbn [shr shr_record_of_loc shr_m].
  replace (e <=? emax - prec) with true; [reflexivity | ].
  symmetry. apply Z.leb_le. unfold emax, prec. lia.
Qed.

(** Division by one is exact. *)
Lemma SFdiv_one (s : bool) (m : positive) (e : Z) :
  bounded prec emax m e = true ->
  SF64div (S754_finite s m e) (S754_finite false 4503599627370496 (-52)) = S754_finite s m e.
Proof.
  intros Hb. destruct (canonical_cases m e Hb) as (He & Hc).
  unfold SF64div, SFdiv. rewrite xorb_false_r.
  unfold SFdiv_core_binary.
  change (Zdigits2 (Zpos 4503599627370496)) with 53.
  change (Zdigits2 (Zpos m)) with (Zpos (digits2_pos m)).
  rewrite fexp_eq.
  destruct Hc as [[-> Hd] | [Hn Hd]].
  - replace (Z.min (Z.max (Zpos (digits2_pos m) + -1074 - (53 + -52) - 53) (-1074)) (-1074 - -52))
      with (-1074) by lia.
    change (-1074 - -52 - -1074) with 52.
    cbv iota. rewrite Z.shiftl_mul_pow2 by lia.
    change 4503599627370496 with (2 ^ 52).
    rewrite (div_eucl_pow2 (Zpos m) 52) by lia.
    change (new_location (2 ^ 52) 0) with loc_Exact.
    apply round_exact. exact Hb.
  - replace (Z.min (Z.max (Zpos (digits2_pos m) + e - (53 + -52) - 53) (-1074)) (e - -52))
      with (e - 1) by lia.
    replace (e - -52 - (e - 1)) with 53 by lia.
    cbv iota. rewrite Z.shiftl_mul_pow2 by lia.
    replace (Zpos m * 2 ^ 53) with (Zpos m~0 * 2 ^ 52) by (change (2 ^ 53) with (2 * 2 ^ 52); lia).
    change 4503599627370496 with (2 ^ 52).
    rewrite (div_eucl_pow2 (Zpos m~0) 52) by lia.
    change (new_location (2 ^ 52) 0) with loc_Exact.
    apply round_exact_double; assumption.
Qed.

(** A number minus itself is +0. *)
Lemma SFsub_diag (s : bool) (m : positive) (e : Z) :
  SF64sub (S754_finite s m e) (S754_finite s m e) = S754_zero false.
Proof.
  unfold SF64sub, SFsub. cbv zeta. rewrite Z.sub_diag. reflexivity.
Qed.

Local Close Scope Z_scope.
Local Open Scope float_scope.

(** What a value is, by its specification. *)
Lemma SF_zero (x : float) (s : bool) :
  Prim2SF x = S754_zero s -> x = if s then neg_zero else PrimFloat.zero.
Proof. intros H. apply Prim2SF_inj. rewrite H. destruct s; reflexivity. Qed.

Lemma SF_infinity (x : float) (s : bool) :
  Prim2SF x = S754_infinity s -> x = if s then neg_infinity else infinity.
Proof. intros H. apply Prim2SF_inj. rewrite H. destruct s; reflexivity. Qed.

Lemma finite_cases (x : float) :
  is_finite x = true ->
  (exists s, Prim2SF x = S754_zero s) \/ (exists s m e, Prim2SF x = S754_finite s m e).
Proof.
  unfold is_finite, is_nan, is_infinity.
  rewrite !FloatAxioms.eqb_spec, abs_spec.
  change (Prim2SF infinity) with (S754_infinity false).
  destruct (Prim2SF x) as [s | s | | s m e] eqn:E; cbn;
    try rewrite orb_true_r; try discriminate; eauto.
Qed.

Lemma zero_add (x : float) (s : bool) (m : positive) (e : Z) :
  Prim2SF x = S754_finite s m e -> 0 + x = x.
Proof.
  intros E. apply Prim2SF_inj. rewrite add_spec, E. reflexivity.
Qed.

Lemma div_one (x : float) (s : bool) (m : positive) (e : Z) :
  Prim2SF x = S754_finite s m e -> x / 1 = x.
Proof.
  intros E. apply Prim2SF_inj. rewrite div_spec, E.
  change (Prim2SF 1) with (S754_finite false 4503599627370496 (-52)).
  apply SFdiv_one.
  generalize (Prim2SF_valid x). rewrite E. exact (fun H => H).
Qed.

Lemma sub_diag (x : float) (s : bool) (m : positive) (e : Z) :
  Prim2SF x = S754_finite s m e -> x - x = 0.
Proof.
  intros E. apply Prim2SF_inj. rewrite sub_spec, E, SFsub_diag. reflexivity.
Qed.

(** A finite number is at distance zero from the mean of itself alone, as
    the callback computes it. *)
Lemma deviation_of_one (x : float) :
  is_finite x = true ->
  x - (0 + x) / 1 = 0 \/ x - (0 + x) / 1 = neg_zero.
Proof.
  intros H.
  destruct (finite_cases x H) as [(s & E) | (s & m & e & E)].
  - rewrite (SF_zero x s E). destruct s; [right | left]; reflexivity.
  - rewrite (zero_add x s m e E), (div_one x s m e E). left. exact (sub_diag x s m e E).
Qed.

(** A number that is not NaN equals the mean of itself alone, up to the
    sign of zero. *)
Lemma mean_of_one_between (x : float) :
  is_nan x = false ->
  (x <=? (0 + x) / 1) = true /\ ((0 + x) / 1 <=? x) = true.
Proof.
  intros H.
  destruct (Prim2SF x) as [s | s | | s m e] eqn:E.
  - rewrite (SF_zero x s E). destruct s; split; reflexivity.
  - rewrite (SF_infinity x s E). destruct s; split; reflexivity.
  - apply FloatOrder.is_nan_SF in H. congruence.
  - rewrite (zero_add x s m e E), (div_one x s m e E).
    split; apply FloatOrder.leb_refl; exact H.
Qed.

End FloatExact.

(** ** Rounding to nearest, between numbers of the format *)

Module Rounding.

Import FloatExact.

Local Open Scope Z_scope.

Lemma digits_bounds (m : positive) :
  2 ^ (Zpos (digits2_pos m) - 1) <= Zpos m < 2 ^ Zpos (digits2_pos m).
Proof.
  induction m as [p IH | p IH | ]; cbn [digits2_pos].
  - rewrite Pos2Z.inj_succ. replace (Z.succ (Zpos (digits2_pos p)) - 1) with (Zpos (digits2_pos p)) by lia.
    rewrite Z.pow_succ_r by lia.
    replace (2 ^ Zpos (digits2_pos p)) with (2 * 2 ^ (Zpos (digits2_pos p) - 1)) in *
      by (rewrite <- Z.pow_succ_r by lia; f_equal; lia).
    lia.
  - rewrite Pos2Z.inj_succ. replace (Z.succ (Zpos (digits2_pos p)) - 1) with (Zpos (digits2_pos p)) by lia.
    rewrite Z.pow_succ_r by lia.
    replace (2 ^ Zpos (digits2_pos p)) with (2 * 2 ^ (Zpos (digits2_pos p) - 1)) in *
      by (rewrite <- Z.pow_succ_r by lia; f_equal; lia).
    lia.
  - cbn. lia.
Qed.

Lemma pow_pos (k : Z) : 0 <= k -> 0 < 2 ^ k.
Proof. intros. apply Z.pow_pos_nonneg; lia. Qed.

Lemma pow_split (a b : Z) : 0 <= a -> 0 <= b -> 2 ^ (a + b) = 2 ^ a * 2 ^ b.
Proof. intros. apply Z.pow_add_r; assumption. Qed.

(** The magnitude of a valid number, by its exponent. *)
Lemma mag_bounds (m : positive) (e : Z) :
  bounded prec emax m e = true ->
  -1074 <= e <= 971
  /\ 0 < mag m e < 2 ^ 53 * 2 ^ (e + 1074)
  /\ (-1074 < e -> 2 ^ 52 * 2 ^ (e + 1074) <= mag m e).
Proof.
  intros Hb. destruct (canonical_cases m e Hb) as (He & Hc).
  pose proof (digits_bounds m) as Hd. unfold mag.
  assert (Hp : 0 < 2 ^ (e + 1074)) by (apply pow_pos; lia).
  assert (Hm : Zpos m < 2 ^ 53).
  { apply Z.lt_le_trans with (2 ^ Zpos (digits2_pos m)); [lia | ].
    apply Z.pow_le_mono_r; lia. }
  split; [lia | ]. split; [nia | ].
  intros Hn. assert (Zpos (digits2_pos m) = 53) by lia.
  replace (Zpos (digits2_pos m) - 1) with 52 in Hd by lia. nia.
Qed.

Lemma repr_mag_lt (P : Z) : repr_mag P -> 0 <= P < 2 ^ 2098.
Proof.
  intros [-> | (m & e & Hb & ->)]; [split; [lia | apply pow_pos; lia] | ].
  destruct (mag_bounds m e Hb) as (He & Hm & _).
  split; [lia | ].
  apply Z.lt_le_trans with (2 ^ 53 * 2 ^ (e + 1074)); [lia | ].
  rewrite <- pow_split by lia. apply Z.pow_le_mono_r; lia.
Qed.

(** A number of the format below the next multiple of [2 ^ E] is at most
    the truncation to [2 ^ E]; one above the truncation is at least the next
    multiple. *)
Lemma trunc_lower (P q E : Z) :
  repr_mag P -> -1074 <= E -> (-1074 < E -> 2 ^ 52 <= q) -> 0 <= q ->
  P < (q + 1) * 2 ^ (E + 1074) -> P <= q * 2 ^ (E + 1074).
Proof.
  intros [-> | (m & e & Hb & ->)] HE Hq Hq0 H.
  - assert (0 < 2 ^ (E + 1074)) by (apply pow_pos; lia). nia.
  - destruct (mag_bounds m e Hb) as (He & Hm & Hn).
    assert (Hp : 0 < 2 ^ (E + 1074)) by (apply pow_pos; lia).
    destruct (Z_lt_le_dec e E) as [Hlt | Hge].
    + assert (2 ^ 52 <= q) by (apply Hq; lia).
      assert (2 ^ 53 * 2 ^ (e + 1074) <= 2 ^ 52 * 2 ^ (E + 1074)).
      { replace (E + 1074) with ((E - e - 1) + (1 + (e + 1074))) by lia.
        rewrite (pow_split (E - e - 1)) by lia. rewrite (pow_split 1) by lia.
        assert (0 < 2 ^ (E - e - 1)) by (apply pow_pos; lia).
        assert (0 < 2 ^ (e + 1074)) by (apply pow_pos; lia).
        change (2 ^ 53) with (2 ^ 52 * 2). change (2 ^ 1) with 2. nia. }
      assert (2 ^ 52 * 2 ^ (E + 1074) <= q * 2 ^ (E + 1074))
        by (apply Z.mul_le_mono_nonneg_r; lia).
      lia.
    + unfold mag in *. replace (e + 1074) with ((e - E) + (E + 1074)) in * by lia.
      rewrite (pow_split (e - E)) in * by lia.
      rewrite Z.mul_assoc in *.
      set (c := Zpos m * 2 ^ (e - E)) in *. set (u := 2 ^ (E + 1074)) in *.
      assert (c < q + 1) by (apply (Z.mul_lt_mono_pos_r u); lia).
      apply Z.mul_le_mono_nonneg_r; lia.
Qed.

Lemma trunc_upper (P q E : Z) :
  repr_mag P -> -1074 <= E -> (-1074 < E -> 2 ^ 52 <= q) -> 0 <= q ->
  q * 2 ^ (E + 1074) < P -> (q + 1) * 2 ^ (E + 1074) <= P.
Proof.
  intros [-> | (m & e & Hb & ->)] HE Hq Hq0 H.
  - assert (0 < 2 ^ (E + 1074)) by (apply pow_pos; lia). nia.
  - destruct (mag_bounds m e Hb) as (He & Hm & Hn).
    assert (Hp : 0 < 2 ^ (E + 1074)) by (apply pow_pos; lia).
    destruct (Z_lt_le_dec e E) as [Hlt | Hge].
    + exfalso. assert (2 ^ 52 <= q) by (apply Hq; lia).
      assert (2 ^ 53 * 2 ^ (e + 1074) <= 2 ^ 52 * 2 ^ (E + 1074)).
      { replace (E + 1074) with ((E - e - 1) + (1 + (e + 1074))) by lia.
        rewrite (pow_split (E - e - 1)) by lia. rewrite (pow_split 1) by lia.
        assert (0 < 2 ^ (E - e - 1)) by (apply pow_pos; lia).
        assert (0 < 2 ^ (e + 1074)) by (apply pow_pos; lia).
        change (2 ^ 53) with (2 ^ 52 * 2). change (2 ^ 1) with 2. nia. }
      assert (2 ^ 52 * 2 ^ (E + 1074) <= q * 2 ^ (E + 1074))
        by (apply Z.mul_le_mono_nonneg_r; lia).
      lia.
    + unfold mag in *. replace (e + 1074) with ((e - E) + (E + 1074)) in * by lia.
      rewrite (pow_split (e - E)) in * by lia.
      rewrite Z.mul_assoc in *.
      set (c := Zpos m * 2 ^ (e - E)) in *. set (u := 2 ^ (E + 1074)) in *.
      assert (q < c) by (apply (Z.mul_lt_mono_pos_r u); lia).
      apply Z.mul_le_mono_nonneg_r; lia.
Qed.

Lemma shr_1_spec (m : Z) (r s : bool) :
  0 <= m ->
  shr_1 {| shr_m := m; shr_r := r; shr_s := s |}
  = {| shr_m := m / 2; shr_r := Z.odd m; shr_s := r || s |}.
Proof.
  intros Hm. destruct m as [ | p | p]; [reflexivity | | lia].
  destruct p as [p | p | ]; cbn [shr_1].
  - f_equal. rewrite Pos2Z.inj_xI. apply Z.div_unique with 1; lia.
  - f_equal. rewrite Pos2Z.inj_xO. apply Z.div_unique with 0; lia.
  - reflexivity.
Qed.

Lemma iter_pos_nat {A : Type} (f : A -> A) (p : positive) :
  forall x, SpecFloat.iter_pos f p x = Nat.iter (Pos.to_nat p) f x.
Proof.
  induction p as [p IH | p IH | ]; intros x; cbn [SpecFloat.iter_pos].
  - rewrite !IH, Pos2Nat.inj_xI.
    replace (S (2 * Pos.to_nat p)) with (Pos.to_nat p + (Pos.to_nat p + 1))%nat by lia.
    rewrite !Nat.iter_add. reflexivity.
  - rewrite !IH, Pos2Nat.inj_xO.
    replace (2 * Pos.to_nat p)%nat with (Pos.to_nat p + Pos.to_nat p)%nat by lia.
    rewrite Nat.iter_add. reflexivity.
  - reflexivity.
Qed.

Lemma iter_shr (m : Z) (r s : bool) (j : nat) :
  0 <= m ->
  exists r' s',
    Nat.iter j shr_1 {| shr_m := m; shr_r := r; shr_s := s |}
    = {| shr_m := m / 2 ^ Z.of_nat j; shr_r := r'; shr_s := s' |}
    /\ (r = false -> s = false -> m mod 2 ^ Z.of_nat j = 0 -> r' = false /\ s' = false).
Proof.
  intros Hm. induction j as [ | j IH].
  - exists r, s. cbn. rewrite Z.div_1_r. auto.
  - destruct IH as (r' & s' & E & H).
    assert (Hp : 0 < 2 ^ Z.of_nat j) by (apply pow_pos; lia).
    assert (Hq : 0 <= m / 2 ^ Z.of_nat j) by (apply Z.div_pos; lia).
    exists (Z.odd (m / 2 ^ Z.of_nat j)), (r' || s').
    rewrite Nat.iter_succ, E, shr_1_spec by exact Hq.
    rewrite Nat2Z.inj_succ, Z.pow_succ_r by lia.
    split.
    + f_equal. rewrite Z.div_div by lia. f_equal. lia.
    + intros Hr Hs Hmod.
      assert (Hd : m = 2 * 2 ^ Z.of_nat j * (m / (2 * 2 ^ Z.of_nat j)))
        by (apply Z.div_exact; lia).
      assert (Hmj : m mod 2 ^ Z.of_nat j = 0).
      { rewrite Hd. replace (2 * 2 ^ Z.of_nat j * (m / (2 * 2 ^ Z.of_nat j)))
          with ((2 * (m / (2 * 2 ^ Z.of_nat j))) * 2 ^ Z.of_nat j) by ring.
        apply Z.mod_mul. lia. }
      destruct (H Hr Hs Hmj) as (-> & ->). split; [ | reflexivity].
      assert (Hq2 : m / 2 ^ Z.of_nat j = 2 * (m / (2 * 2 ^ Z.of_nat j))).
      { rewrite Hd at 1.
        replace (2 * 2 ^ Z.of_nat j * (m / (2 * 2 ^ Z.of_nat j)))
          with ((2 * (m / (2 * 2 ^ Z.of_nat j))) * 2 ^ Z.of_nat j) by ring.
        apply Z.div_mul. lia. }
      rewrite Hq2, Z.odd_mul. reflexivity.
Qed.

Lemma first_shift (mz e k : Z) (l : location) :
  0 <= mz -> 0 <= k ->
  exists mrs,
    shr (shr_record_of_loc mz l) e k = (mrs, e + k)
    /\ shr_m mrs = mz / 2 ^ k
    /\ (l = loc_Exact -> mz mod 2 ^ k = 0 -> shr_r mrs = false /\ shr_s mrs = false).
Proof.
  intros Hm Hk. destruct k as [ | p | p]; [ | | lia].
  - exists (shr_record_of_loc mz l). cbn [shr]. rewrite Z.add_0_r, Z.div_1_r.
    split; [reflexivity | ]. split; [destruct l as [ | []]; reflexivity | ].
    intros ->. auto.
  - assert (Hrec : exists r s, shr_record_of_loc mz l = {| shr_m := mz; shr_r := r; shr_s := s |}
                               /\ (l = loc_Exact -> r = false /\ s = false)).
    { destruct l as [ | []]; cbn; do 2 eexists; split; try reflexivity; auto; discriminate. }
    destruct Hrec as (r & s & Er & Hl).
    destruct (iter_shr mz r s (Pos.to_nat p) Hm) as (r' & s' & Ei & Hi).
    rewrite positive_nat_Z in Ei, Hi.
    exists {| shr_m := mz / 2 ^ Zpos p; shr_r := r'; shr_s := s' |}.
    cbn [shr]. rewrite Er, iter_pos_nat, Ei.
    split; [reflexivity | ]. split; [reflexivity | ].
    intros HE Hmod. destruct (Hl HE) as (-> & ->). cbn. apply Hi; auto.
Qed.

Lemma rne_spec (mrs : shr_record) :
  let m'' := round_nearest_even (shr_m mrs) (loc_of_shr_record mrs) in
  shr_m mrs <= m'' <= shr_m mrs + 1
  /\ (shr_r mrs = false -> shr_s mrs = false -> m'' = shr_m mrs).
Proof.
  destruct mrs as [m [] []]; cbn; try destruct (Z.even m); split; try lia;
    intros; try discriminate; reflexivity.
Qed.

Lemma Zdigits2_le (n : Z) : 0 <= n < 2 ^ 53 -> Zdigits2 n <= 53.
Proof.
  intros H. destruct n as [ | p | p]; cbn; [lia | | lia].
  pose proof (digits_bounds p) as Hd.
  destruct (Z_le_gt_dec (Zpos (digits2_pos p)) 53) as [Hle | Hgt]; [exact Hle | exfalso].
  assert (2 ^ 53 <= 2 ^ (Zpos (digits2_pos p) - 1)) by (apply Z.pow_le_mono_r; lia).
  lia.
Qed.

Lemma final_step (s : bool) (m'' E : Z) :
  0 <= m'' <= 2 ^ 53 -> -1074 <= E -> (-1074 < E -> 2 ^ 52 <= m'') ->
  let R :=
    let '(mrs, e'') := shr_fexp prec emax m'' E loc_Exact in
    match shr_m mrs with
    | 0 => S754_zero s
    | Zpos m => if e'' <=? emax - prec then S754_finite s m e'' else S754_infinity s
    | Zneg _ => S754_nan
    end in
  (2 ^ 2098 <= m'' * 2 ^ (E + 1074) /\ R = S754_infinity s)
  \/ (is_real R /\ scaled R = cond_Zopp s (m'' * 2 ^ (E + 1074))).
Proof.
  intros Hm HE Hn. cbv zeta. unfold shr_fexp. rewrite fexp_eq.
  assert (Hp : 0 < 2 ^ (E + 1074)) by (apply pow_pos; lia).
  destruct (Z_lt_le_dec m'' (2 ^ 53)) as [Hlt | Hge].
  - pose proof (Zdigits2_le m'' ltac:(lia)) as Hd.
    assert (Hk : Z.max (Zdigits2 m'' + E - 53) (-1074) - E <= 0) by lia.
    revert Hk.
    destruct (Z.max (Zdigits2 m'' + E - 53) (-1074) - E) as [ | p | p]; intros Hk; [ | lia | ];
      cbn [shr shr_record_of_loc shr_m].
    + destruct m'' as [ | p | p]; [right; split; [exact I | destruct s; reflexivity] | | lia].
      change (emax - prec) with 971.
      destruct (Z.leb_spec E 971) as [H971 | H971].
      * right. split; [exact I | reflexivity].
      * left. split; [ | reflexivity].
        assert (2 ^ 52 <= Zpos p) by (apply Hn; lia).
        change (2 ^ 2098) with (2 ^ 52 * 2 ^ 2046).
        assert (2 ^ 2046 <= 2 ^ (E + 1074)) by (apply Z.pow_le_mono_r; lia).
        nia.
    + destruct m'' as [ | p0 | p0]; [right; split; [exact I | destruct s; reflexivity] | | lia].
      change (emax - prec) with 971.
      destruct (Z.leb_spec E 971) as [H971 | H971].
      * right. split; [exact I | reflexivity].
      * left. split; [ | reflexivity].
        assert (2 ^ 52 <= Zpos p0) by (apply Hn; lia).
        change (2 ^ 2098) with (2 ^ 52 * 2 ^ 2046).
        assert (2 ^ 2046 <= 2 ^ (E + 1074)) by (apply Z.pow_le_mono_r; lia).
        nia.
  - assert (Em : m'' = 2 ^ 53) by lia. subst m''.
    change (Zdigits2 (2 ^ 53)) with 54.
    replace (Z.max (54 + E - 53) (-1074) - E) with 1 by lia.
    cbn [shr shr_record_of_loc].
    change (SpecFloat.iter_pos shr_1 1 {| shr_m := 2 ^ 53; shr_r := false; shr_s := false |})
      with {| shr_m := 2 ^ 52; shr_r := false; shr_s := false |}.
    cbn [shr_m]. change (2 ^ 52) with (Zpos 4503599627370496). cbv iota.
    change (emax - prec) with 971.
    destruct (Z.leb_spec (E + 1) 971) as [H971 | H971].
    + right. split; [exact I | ]. cbn [scaled]. unfold mag. f_equal.
      replace (E + 1 + 1074) with (1 + (E + 1074)) by lia.
      rewrite (pow_split 1 (E + 1074)) by lia.
      change (2 ^ 53) with (4503599627370496 * 2 ^ 1). ring.
    + left. split; [ | reflexivity].
      change (2 ^ 2098) with (2 ^ 53 * 2 ^ 2045).
      assert (2 ^ 2045 <= 2 ^ (E + 1074)) by (apply Z.pow_le_mono_r; lia).
      nia.
Qed.

Lemma round_aux_spec (s : bool) (mz e : Z) (l : location) :
  0 <= mz -> -1074 <= e ->
  0 <= fexp prec emax (Zdigits2 mz + e) - e ->
  exists G,
    0 <= G
    /\ (forall P, repr_mag P -> P < (mz + 1) * 2 ^ (e + 1074) -> P <= G)
    /\ (forall P, repr_mag P ->
                  mz * 2 ^ (e + 1074) < P \/ (l = loc_Exact /\ mz * 2 ^ (e + 1074) <= P) ->
                  G <= P)
    /\ ((2 ^ 2098 <= G /\ binary_round_aux prec emax s mz e l = S754_infinity s)
        \/ (is_real (binary_round_aux prec emax s mz e l)
            /\ scaled (binary_round_aux prec emax s mz e l) = cond_Zopp s G)).
Proof.
  intros Hm He Hk. rewrite fexp_eq in Hk.
  set (k := Z.max (Zdigits2 mz + e - 53) (-1074) - e) in *.
  set (q := mz / 2 ^ k). set (E := e + k).
  assert (Hpk : 0 < 2 ^ k) by (apply pow_pos; lia).
  assert (Hpe : 0 < 2 ^ (e + 1074)) by (apply pow_pos; lia).
  assert (HE : -1074 <= E) by (unfold E, k; lia).
  assert (HpE : 2 ^ (E + 1074) = 2 ^ k * 2 ^ (e + 1074)).
  { unfold E. replace (e + k + 1074) with (k + (e + 1074)) by lia. apply pow_split; lia. }
  assert (Hdiv : q * 2 ^ k <= mz < (q + 1) * 2 ^ k).
  { unfold q. pose proof (Z.div_mod mz (2 ^ k) ltac:(lia)).
    pose proof (Z.mod_pos_bound mz (2 ^ k) Hpk). nia. }
  assert (Hq0 : 0 <= q) by (apply Z.div_pos; lia).
  assert (Hq52 : -1074 < E -> 2 ^ 52 <= q).
  { intros HnE. destruct mz as [ | p | p]; [ | | lia].
    - exfalso. unfold E, k in HnE. cbn [Zdigits2] in *. lia.
    - cbn [Zdigits2] in *. pose proof (digits_bounds p) as Hd.
      assert (Ek : k = Zpos (digits2_pos p) - 53) by (unfold E, k in *; lia).
      unfold q. apply Z.div_le_lower_bound; [lia | ].
      rewrite <- pow_split by lia.
      replace (k + 52) with (Zpos (digits2_pos p) - 1) by lia. lia. }
  assert (Hq53 : q < 2 ^ 53).
  { unfold q. apply Z.div_lt_upper_bound; [lia | ].
    destruct mz as [ | p | p]; [ | | lia].
    - apply Z.mul_pos_pos; [lia | apply pow_pos; lia].
    - pose proof (digits_bounds p) as Hd. cbn [Zdigits2] in *.
      apply Z.lt_le_trans with (2 ^ Zpos (digits2_pos p)); [lia | ].
      rewrite <- pow_split by lia. apply Z.pow_le_mono_r; lia. }
  destruct (first_shift mz e k l Hm Hk) as (mrs & Es & Eq & Hex).
  destruct (rne_spec mrs) as (Hr1 & Hr2).
  set (m'' := round_nearest_even (shr_m mrs) (loc_of_shr_record mrs)) in *.
  fold q in Eq. rewrite Eq in Hr1, Hr2.
  assert (HR : binary_round_aux prec emax s mz e l
               = let '(mrs2, e2) := shr_fexp prec emax m'' E loc_Exact in
                 match shr_m mrs2 with
                 | 0 => S754_zero s
                 | Zpos m => if e2 <=? emax - prec then S754_finite s m e2 else S754_infinity s
                 | Zneg _ => S754_nan
                 end).
  { unfold binary_round_aux. unfold shr_fexp at 1. rewrite fexp_eq. fold k. rewrite Es.
    reflexivity. }
  rewrite HR.
  exists (m'' * 2 ^ (E + 1074)).
  assert (HpE' : 0 < 2 ^ (E + 1074)) by (apply pow_pos; lia).
  split; [nia | ]. split; [ | split].
  - intros P HP HPlt.
    assert (P <= q * 2 ^ (E + 1074)).
    { apply trunc_lower; try assumption. rewrite HpE. nia. }
    nia.
  - intros P HP HPge.
    destruct (Z.eq_dec (mz mod 2 ^ k) 0) as [Hmod | Hmod].
    + assert (Emz : mz = q * 2 ^ k).
      { unfold q. rewrite Z.mul_comm. apply Z.div_exact; lia. }
      destruct HPge as [HPgt | (Hl & HPle)].
      * assert ((q + 1) * 2 ^ (E + 1074) <= P).
        { apply trunc_upper; try assumption. rewrite HpE. nia. }
        nia.
      * rewrite (Hr2 (proj1 (Hex Hl Hmod)) (proj2 (Hex Hl Hmod))).
        rewrite HpE. nia.
    + assert (q * 2 ^ k < mz).
      { unfold q in *. pose proof (Z.div_mod mz (2 ^ k) ltac:(lia)).
        pose proof (Z.mod_pos_bound mz (2 ^ k) Hpk). nia. }
      assert ((q + 1) * 2 ^ (E + 1074) <= P).
      { apply trunc_upper; try assumption. rewrite HpE. nia. }
      nia.
  - apply final_step; [lia | exact HE | intros H; specialize (Hq52 H); lia].
Qed.

Lemma iter_xO (m p : positive) :
  Zpos (Pos.iter xO m p) = Zpos m * 2 ^ Zpos p
  /\ digits2_pos (Pos.iter xO m p) = (digits2_pos m + p)%positive.
Proof.
  induction p as [ | p IH] using Pos.peano_ind.
  - cbn [Pos.iter]. split; [rewrite Pos2Z.inj_xO; change (2 ^ 1) with 2; lia | ].
    cbn [digits2_pos]. rewrite Pos.add_1_r. reflexivity.
  - rewrite Pos.iter_succ. destruct IH as (IH1 & IH2). split.
    + rewrite Pos2Z.inj_xO, IH1, Pos2Z.inj_succ, Z.pow_succ_r by lia. ring.
    + cbn [digits2_pos]. rewrite IH2. lia.
Qed.

Lemma binary_round_spec (s : bool) (m : positive) (e : Z) :
  -1074 <= e ->
  exists G,
    0 <= G
    /\ (forall P, repr_mag P -> P <= mag m e -> P <= G)
    /\ (forall P, repr_mag P -> mag m e <= P -> G <= P)
    /\ ((2 ^ 2098 <= G /\ binary_round prec emax s m e = S754_infinity s)
        \/ (is_real (binary_round prec emax s m e)
            /\ scaled (binary_round prec emax s m e) = cond_Zopp s G)).
Proof.
  intros He. unfold binary_round, shl_align. rewrite fexp_eq.
  assert (Hpe : 0 < 2 ^ (e + 1074)) by (apply pow_pos; lia).
  destruct (Z.max (Zpos (digits2_pos m) + e - 53) (-1074) - e) as [ | p | p] eqn:Ek.
  - destruct (round_aux_spec s (Zpos m) e loc_Exact) as (G & HG & Hlo & Hhi & HR);
      [lia | exact He | rewrite fexp_eq; cbn [Zdigits2]; lia | ].
    exists G. split; [exact HG | ]. split; [ | split; [ | exact HR]].
    + intros P HP Hle. apply Hlo; [exact HP | ]. unfold mag in Hle. nia.
    + intros P HP Hle. apply Hhi; [exact HP | ]. right. split; [reflexivity | exact Hle].
  - destruct (round_aux_spec s (Zpos m) e loc_Exact) as (G & HG & Hlo & Hhi & HR);
      [lia | exact He | rewrite fexp_eq; cbn [Zdigits2]; lia | ].
    exists G. split; [exact HG | ]. split; [ | split; [ | exact HR]].
    + intros P HP Hle. apply Hlo; [exact HP | ]. unfold mag in Hle. nia.
    + intros P HP Hle. apply Hhi; [exact HP | ]. right. split; [reflexivity | exact Hle].
  - destruct (iter_xO m p) as (Hv & Hd).
    set (e' := Z.max (Zpos (digits2_pos m) + e - 53) (-1074)) in *.
    assert (Ee : e = e' + Zpos p) by lia.
    assert (He' : -1074 <= e') by (unfold e'; lia).
    assert (Hmag : Zpos (Pos.iter xO m p) * 2 ^ (e' + 1074) = mag m e).
    { unfold mag. rewrite Hv. replace (e + 1074) with (Zpos p + (e' + 1074)) by lia.
      rewrite (pow_split (Zpos p) (e' + 1074)) by lia. ring. }
    destruct (round_aux_spec s (Zpos (Pos.iter xO m p)) e' loc_Exact)
      as (G & HG & Hlo & Hhi & HR);
      [lia | lia | rewrite fexp_eq; cbn [Zdigits2]; rewrite Hd, Pos2Z.inj_add; lia | ].
    assert (Hpe' : 0 < 2 ^ (e' + 1074)) by (apply pow_pos; lia).
    exists G. split; [exact HG | ]. split; [ | split; [ | exact HR]].
    + intros P HP Hle. apply Hlo; [exact HP | ]. rewrite <- Hmag in Hle. nia.
    + intros P HP Hle. apply Hhi; [exact HP | ]. right. split; [reflexivity | ].
      rewrite Hmag. exact Hle.
Qed.

Lemma align_value (m : positive) (e ez : Z) :
  -1074 <= ez <= e ->
  Zpos (fst (shl_align m e ez)) * 2 ^ (ez + 1074) = mag m e.
Proof.
  intros H. unfold shl_align, mag.
  destruct (ez - e) as [ | p | p] eqn:E; cbn [fst].
  - replace ez with e by lia. reflexivity.
  - lia.
  - destruct (iter_xO m p) as (Hv & _). rewrite Hv.
    replace (e + 1074) with (Zpos p + (ez + 1074)) by lia.
    rewrite (pow_split (Zpos p) (ez + 1074)) by lia. ring.
Qed.

Lemma normalize_between (M ez Lo Hi : Z) :
  -1074 <= ez -> repr Lo -> repr Hi ->
  Lo <= M * 2 ^ (ez + 1074) <= Hi ->
  is_real (binary_normalize prec emax M ez false)
  /\ Lo <= scaled (binary_normalize prec emax M ez false) <= Hi.
Proof.
  intros Hez HLo HHi Hb. unfold repr in *.
  assert (Hp : 0 < 2 ^ (ez + 1074)) by (apply pow_pos; lia).
  destruct M as [ | p | p]; cbn [binary_normalize].
  - split; [exact I | cbn; lia].
  - destruct (binary_round_spec false p ez Hez) as (G & HG & Hlo & Hhi & HR).
    fold (mag p ez) in Hb.
    assert (0 < mag p ez) by (unfold mag; nia).
    assert (HGhi : G <= Hi).
    { replace Hi with (Z.abs Hi) by lia. apply Hhi; [exact HHi | lia]. }
    pose proof (repr_mag_lt _ HHi).
    destruct HR as [(Hinf & _) | (Hreal & Hs)]; [lia | ].
    split; [exact Hreal | ]. rewrite Hs. cbn [cond_Zopp]. split; [ | exact HGhi].
    destruct (Z_le_gt_dec Lo 0) as [HLo0 | HLo0]; [lia | ].
    replace Lo with (Z.abs Lo) by lia. apply Hlo; [exact HLo | lia].
  - destruct (binary_round_spec true p ez Hez) as (G & HG & Hlo & Hhi & HR).
    assert (Hm : Z.neg p * 2 ^ (ez + 1074) = - mag p ez) by (unfold mag; lia).
    rewrite Hm in Hb.
    assert (0 < mag p ez) by (unfold mag; nia).
    assert (HGlo : G <= - Lo).
    { replace (- Lo) with (Z.abs Lo) by lia. apply Hhi; [exact HLo | lia]. }
    pose proof (repr_mag_lt _ HLo).
    destruct HR as [(Hinf & _) | (Hreal & Hs)]; [lia | ].
    split; [exact Hreal | ]. rewrite Hs. cbn [cond_Zopp]. split; [lia | ].
    destruct (Z_le_gt_dec 0 Hi) as [HHi0 | HHi0]; [lia | ].
    assert (- Hi <= G).
    { replace (- Hi) with (Z.abs Hi) by lia. apply Hlo; [exact HHi | lia]. }
    lia.
Qed.

Lemma valid_exponent (s : bool) (m : positive) (e : Z) :
  valid_binary (S754_finite s m e) = true -> -1074 <= e.
Proof. intros H. apply mag_bounds in H. lia. Qed.

Lemma SFadd_between (X Y : spec_float) (Lo Hi : Z) :
  valid_binary X = true -> valid_binary Y = true ->
  is_real X -> is_real Y ->
  repr Lo -> repr Hi ->
  Lo <= scaled X + scaled Y <= Hi ->
  is_real (SF64add X Y) /\ Lo <= scaled (SF64add X Y) <= Hi.
Proof.
  intros HvX HvY HrX HrY HLo HHi Hb. unfold SF64add, SFadd.
  destruct X as [sx | sx | | sx mx ex], Y as [sy | sy | | sy my ey];
    try contradiction.
  - destruct sx, sy; split; try exact I; cbn in *; lia.
  - split; [exact I | cbn in *; lia].
  - split; [exact I | cbn in *; lia].
  - pose proof (valid_exponent _ _ _ HvX). pose proof (valid_exponent _ _ _ HvY).
    cbv zeta. apply normalize_between; [lia | exact HLo | exact HHi | ].
    cbn [scaled] in Hb.
    rewrite Z.mul_add_distr_r.
    assert (E1 : cond_Zopp sx (Zpos (fst (shl_align mx ex (Z.min ex ey)))) * 2 ^ (Z.min ex ey + 1074)
                 = cond_Zopp sx (mag mx ex)).
    { rewrite <- (align_value mx ex (Z.min ex ey)) by lia. destruct sx; cbn [cond_Zopp]; ring. }
    assert (E2 : cond_Zopp sy (Zpos (fst (shl_align my ey (Z.min ex ey)))) * 2 ^ (Z.min ex ey + 1074)
                 = cond_Zopp sy (mag my ey)).
    { rewrite <- (align_value my ey (Z.min ex ey)) by lia. destruct sy; cbn [cond_Zopp]; ring. }
    rewrite E1, E2. exact Hb.
Qed.

Lemma Zdigits2_ge (q : Z) : 2 ^ 52 <= q -> 53 <= Zdigits2 q.
Proof.
  intros H. assert (Hp : 0 < 2 ^ 52) by (apply pow_pos; lia).
  destruct q as [ | p | p]; [lia | | lia]. cbn [Zdigits2].
  pose proof (digits_bounds p) as Hd.
  destruct (Z_le_gt_dec 53 (Zpos (digits2_pos p))) as [Hle | Hgt]; [exact Hle | exfalso].
  assert (2 ^ Zpos (digits2_pos p) <= 2 ^ 52) by (apply Z.pow_le_mono_r; lia).
  lia.
Qed.

Lemma new_location_zero (nb : Z) : new_location nb 0 = loc_Exact.
Proof.
  unfold new_location, new_location_even, new_location_odd.
  destruct (Z.even nb); reflexivity.
Qed.

(** The quotient by a count [n]: rounded, it stays between the numbers of
    the format that enclose the exact quotient. *)
Lemma div_core_spec (s : bool) (mx : positive) (ex : Z) (my : positive) (ey n : Z) :
  bounded prec emax mx ex = true ->
  bounded prec emax my ey = true ->
  ey <= 0 -> 1 <= n -> Zpos my = n * 2 ^ (- ey) ->
  let R := (let '(mz, ez, lz) := SFdiv_core_binary prec emax (Zpos mx) ex (Zpos my) ey in
            binary_round_aux prec emax s mz ez lz) in
  exists G,
    0 <= G
    /\ (forall P, repr_mag P -> n * P <= mag mx ex -> P <= G)
    /\ (forall P, repr_mag P -> mag mx ex <= n * P -> G <= P)
    /\ ((2 ^ 2098 <= G /\ R = S754_infinity s)
        \/ (is_real R /\ scaled R = cond_Zopp s G)).
Proof.
  intros Hbx Hby Hey Hn Hmy. cbv zeta.
  destruct (mag_bounds mx ex Hbx) as (Hex & _ & _).
  pose proof (digits_bounds mx) as Hdx. pose proof (digits_bounds my) as Hdy.
  assert (Hd1 : Zpos (digits2_pos mx) <= 53) by (destruct (canonical_cases mx ex Hbx); lia).
  unfold SFdiv_core_binary. cbn [Zdigits2]. rewrite fexp_eq.
  set (d1 := Zpos (digits2_pos mx)) in *. set (d2 := Zpos (digits2_pos my)) in *.
  set (e' := Z.min (Z.max (d1 + ex - (d2 + ey) - 53) (-1074)) (ex - ey)).
  set (sh := ex - ey - e').
  assert (He' : -1074 <= e') by (unfold e'; lia).
  assert (Hsh : 0 <= sh) by (unfold sh, e'; lia).
  assert (Em' : match sh with
                | 0 => Zpos mx
                | Zpos _ => Z.shiftl (Zpos mx) sh
                | Zneg _ => 0
                end = Zpos mx * 2 ^ sh).
  { destruct sh as [ | p | p] eqn:E; [change (2 ^ 0) with 1; lia | | lia].
    apply Z.shiftl_mul_pow2. lia. }
  rewrite Em'.
  assert (Hps : 0 < 2 ^ sh) by (apply pow_pos; lia).
  generalize (Z.div_eucl_eq (Zpos mx * 2 ^ sh) (Zpos my) ltac:(lia)).
  generalize (Z.mod_pos_bound (Zpos mx * 2 ^ sh) (Zpos my) ltac:(lia)).
  unfold Z.modulo.
  destruct (Z.div_eucl (Zpos mx * 2 ^ sh) (Zpos my)) as [q r]. intros Hr Hqr.
  assert (Hq0 : 0 <= q) by nia.
  assert (Hk : 0 <= fexp prec emax (Zdigits2 q + e') - e').
  { rewrite fexp_eq. destruct (Z.eq_dec e' (-1074)) as [Heq | Hne]; [lia | ].
    assert (Hs53 : 53 - d1 + d2 <= sh) by (unfold sh, e' in *; lia).
    assert (2 ^ 52 <= q).
    { assert (2 ^ (d1 - 1) * 2 ^ (53 - d1 + d2) <= Zpos mx * 2 ^ sh).
      { assert (2 ^ (53 - d1 + d2) <= 2 ^ sh) by (apply Z.pow_le_mono_r; unfold d1, d2 in *; lia).
        assert (0 < 2 ^ (53 - d1 + d2)) by (apply pow_pos; unfold d1, d2 in *; lia).
        nia. }
      rewrite <- pow_split in H by (unfold d1, d2 in *; lia).
      replace (d1 - 1 + (53 - d1 + d2)) with (52 + d2) in H by lia.
      rewrite pow_split in H by (unfold d2; lia).
      assert (0 < 2 ^ 52) by (apply pow_pos; lia).
      destruct (Z_le_gt_dec (2 ^ 52) q) as [Hle | Hgt]; [exact Hle | exfalso].
      assert (q + 1 <= 2 ^ 52) by lia.
      assert ((q + 1) * Zpos my <= 2 ^ 52 * Zpos my) by (apply Z.mul_le_mono_nonneg_r; lia).
      assert (2 ^ 52 * Zpos my < 2 ^ 52 * 2 ^ d2) by (apply Z.mul_lt_mono_pos_l; lia).
      lia. }
    pose proof (Zdigits2_ge q H). lia. }
  destruct (round_aux_spec s q e' (new_location (Zpos my) r) Hq0 He' Hk)
    as (G & HG & Hlo & Hhi & HR).
  exists G. split; [exact HG | ].
  assert (HU : 0 < 2 ^ (e' + 1074)) by (apply pow_pos; lia).
  assert (Hey' : 0 < 2 ^ (- ey)) by (apply pow_pos; lia).
  assert (Hmag : mag mx ex * 2 ^ (- ey) = (Zpos my * q + r) * 2 ^ (e' + 1074)).
  { rewrite <- Hqr. unfold mag.
    rewrite <- Z.mul_assoc, <- (pow_split (ex + 1074) (- ey)) by lia.
    replace (ex + 1074 + - ey) with (sh + (e' + 1074)) by (unfold sh; lia).
    rewrite (pow_split sh (e' + 1074)) by lia. ring. }
  split; [ | split; [ | exact HR]].
  - intros P HP Hle. apply Hlo; [exact HP | ].
    pose proof (repr_mag_lt P HP).
    assert (Zpos my * P <= (Zpos my * q + r) * 2 ^ (e' + 1074)).
    { rewrite <- Hmag, Hmy. nia. }
    apply (Z.mul_lt_mono_pos_l (Zpos my)); [lia | ]. nia.
  - intros P HP Hle. apply Hhi; [exact HP | ].
    assert ((Zpos my * q + r) * 2 ^ (e' + 1074) <= Zpos my * P).
    { rewrite <- Hmag, Hmy. nia. }
    destruct (Z.eq_dec r 0) as [-> | Hr0].
    + right. split; [apply new_location_zero | ].
      apply (Z.mul_le_mono_pos_l _ _ (Zpos my)); [lia | ]. nia.
    + left. apply (Z.mul_lt_mono_pos_l (Zpos my)); [lia | ]. nia.
Qed.

Lemma SFdiv_between (X : spec_float) (my : positive) (ey n Lo Hi : Z) :
  valid_binary X = true -> is_real X ->
  bounded prec emax my ey = true ->
  ey <= 0 -> 1 <= n -> Zpos my = n * 2 ^ (- ey) ->
  repr Lo -> repr Hi ->
  n * Lo <= scaled X <= n * Hi ->
  is_real (SF64div X (S754_finite false my ey))
  /\ Lo <= scaled (SF64div X (S754_finite false my ey)) <= Hi.
Proof.
  intros HvX HrX Hby Hey Hn Hmy HLo HHi Hb. unfold SF64div, SFdiv. unfold repr in *.
  destruct X as [sx | sx | | sx mx ex]; try contradiction.
  - split; [exact I | cbn in *; nia].
  - rewrite xorb_false_r.
    destruct (div_core_spec sx mx ex my ey n HvX Hby Hey Hn Hmy) as (G & HG & Hlo & Hhi & HR).
    cbv zeta in HR.
    destruct (mag_bounds mx ex HvX) as (_ & Hm & _).
    pose proof (repr_mag_lt _ HLo) as HLo'. pose proof (repr_mag_lt _ HHi) as HHi'.
    cbn [scaled] in Hb. destruct sx; cbn [cond_Zopp] in *.
    + assert (HGlo : G <= - Lo).
      { replace (- Lo) with (Z.abs Lo) by nia. apply Hhi; [exact HLo | nia]. }
      destruct HR as [(Hinf & _) | (Hreal & Hs)]; [nia | ].
      split; [exact Hreal | ]. rewrite Hs. split; [lia | ].
      destruct (Z_le_gt_dec 0 Hi) as [HHi0 | HHi0]; [lia | ].
      assert (- Hi <= G).
      { replace (- Hi) with (Z.abs Hi) by lia. apply Hlo; [exact HHi | nia]. }
      lia.
    + assert (HGhi : G <= Hi).
      { replace Hi with (Z.abs Hi) by nia. apply Hhi; [exact HHi | nia]. }
      destruct HR as [(Hinf & _) | (Hreal & Hs)]; [nia | ].
      split; [exact Hreal | ]. rewrite Hs. split; [ | exact HGhi].
      destruct (Z_le_gt_dec Lo 0) as [HLo0 | HLo0]; [lia | ].
      replace Lo with (Z.abs Lo) by lia. apply Hlo; [exact HLo | nia].
Qed.

(** The order of valid numbers is the order of their scaled values. *)
Lemma mag_exponent_lt (m1 : positive) (e1 : Z) (m2 : positive) (e2 : Z) :
  bounded prec emax m1 e1 = true -> bounded prec emax m2 e2 = true ->
  e1 < e2 -> mag m1 e1 < mag m2 e2.
Proof.
  intros H1 H2 Hlt.
  destruct (mag_bounds m1 e1 H1) as (He1 & Hm1 & _).
  destruct (mag_bounds m2 e2 H2) as (He2 & _ & Hm2).
  specialize (Hm2 ltac:(lia)).
  assert (2 ^ 53 * 2 ^ (e1 + 1074) <= 2 ^ 52 * 2 ^ (e2 + 1074)).
  { replace (e2 + 1074) with ((e2 - e1 - 1) + (1 + (e1 + 1074))) by lia.
    rewrite (pow_split (e2 - e1 - 1)) by lia. rewrite (pow_split 1) by lia.
    assert (0 < 2 ^ (e2 - e1 - 1)) by (apply pow_pos; lia).
    assert (0 < 2 ^ (e1 + 1074)) by (apply pow_pos; lia).
    change (2 ^ 53) with (2 ^ 52 * 2). change (2 ^ 1) with 2. nia. }
  lia.
Qed.

Lemma mag_compare (m1 : positive) (e1 : Z) (m2 : positive) (e2 : Z) :
  bounded prec emax m1 e1 = true -> bounded prec emax m2 e2 = true ->
  match Z.compare e1 e2 with
  | Lt => Lt
  | Gt => Gt
  | Eq => Pos.compare_cont Eq m1 m2
  end = Z.compare (mag m1 e1) (mag m2 e2).
Proof.
  intros H1 H2. symmetry.
  destruct (Z.compare_spec e1 e2) as [-> | Hlt | Hgt].
  - change (Pos.compare_cont Eq m1 m2) with (Z.compare (Zpos m1) (Zpos m2)).
    unfold mag. destruct (mag_bounds m2 e2 H2) as (He & _).
    assert (0 < 2 ^ (e2 + 1074)) by (apply pow_pos; lia).
    destruct (Z.compare_spec (Zpos m1) (Zpos m2)) as [E | E | E].
    + rewrite E. apply Z.compare_refl.
    + apply Z.compare_lt_iff. nia.
    + apply Z.compare_gt_iff. nia.
  - apply Z.compare_lt_iff. apply mag_exponent_lt; assumption.
  - apply Z.compare_gt_iff. apply mag_exponent_lt; assumption.
Qed.

Lemma SFcompare_scaled (X Y : spec_float) :
  valid_binary X = true -> valid_binary Y = true -> is_real X -> is_real Y ->
  SFcompare X Y = Some (Z.compare (scaled X) (scaled Y)).
Proof.
  intros HvX HvY HrX HrY.
  destruct X as [sx | sx | | sx mx ex], Y as [sy | sy | | sy my ey]; try contradiction.
  - reflexivity.
  - destruct (mag_bounds my ey HvY) as (_ & Hm & _).
    cbn [SFcompare scaled]. destruct sy; cbn [cond_Zopp]; f_equal; symmetry.
    + apply Z.compare_gt_iff. lia.
    + apply Z.compare_lt_iff. lia.
  - destruct (mag_bounds mx ex HvX) as (_ & Hm & _).
    cbn [SFcompare scaled]. destruct sx; cbn [cond_Zopp]; f_equal; symmetry.
    + apply Z.compare_lt_iff. lia.
    + apply Z.compare_gt_iff. lia.
  - destruct (mag_bounds mx ex HvX) as (_ & Hm1 & _).
    destruct (mag_bounds my ey HvY) as (_ & Hm2 & _).
    cbn [SFcompare scaled]. destruct sx, sy; cbn [cond_Zopp]; f_equal.
    + rewrite Z.compare_opp.
      rewrite <- (mag_compare my ey mx ex HvY HvX).
      rewrite (Z.compare_antisym ex ey).
      change (Pos.compare_cont Eq my mx) with (Pos.compare my mx).
      change (Pos.compare_cont Eq mx my) with (Pos.compare mx my).
      rewrite (Pos.compare_antisym mx my).
      destruct (ex ?= ey); reflexivity.
    + symmetry. apply Z.compare_lt_iff. lia.
    + symmetry. apply Z.compare_gt_iff. lia.
    + apply mag_compare; assumption.
Qed.

End Rounding.

(** ** Sums and quotients between numbers of the format *)

Module FloatBounds.

Import Rounding.

Local Open Scope Z_scope.

Lemma finite_is_real (x : float) : is_finite x = true -> is_real (Prim2SF x).
Proof.
  intros H. destruct (FloatExact.finite_cases x H) as [(s & E) | (s & m & e & E)];
    rewrite E; exact I.
Qed.

Lemma real_not_nan (x : float) : is_real (Prim2SF x) -> is_nan x = false.
Proof. intros H. apply FloatOrder.is_nan_SF. intros E. rewrite E in H. exact H. Qed.

Lemma representable_repr (N : Z) : representable N -> repr N.
Proof.
  intros (x & Hf & <-). unfold units, repr.
  pose proof (Prim2SF_valid x) as Hv.
  destruct (FloatExact.finite_cases x Hf) as [(s & E) | (s & m & e & E)];
    rewrite E in *; cbn [scaled].
  - left. reflexivity.
  - right. exists m, e. split; [exact Hv | ].
    destruct (mag_bounds m e Hv) as (_ & Hm & _). destruct s; cbn [cond_Zopp]; lia.
Qed.

Lemma add_between (x y : float) (Lo Hi : Z) :
  is_real (Prim2SF x) -> is_real (Prim2SF y) ->
  repr Lo -> repr Hi ->
  Lo <= units x + units y <= Hi ->
  is_real (Prim2SF (x + y)%float) /\ Lo <= units (x + y)%float <= Hi.
Proof.
  intros Hx Hy HLo HHi Hb. unfold units in *. rewrite add_spec.
  apply SFadd_between; auto using Prim2SF_valid.
Qed.

Lemma leb_units (x y : float) :
  is_real (Prim2SF x) -> is_real (Prim2SF y) ->
  (x <=? y)%float = (units x <=? units y).
Proof.
  intros Hx Hy. rewrite FloatAxioms.leb_spec. unfold SFleb, units.
  rewrite (SFcompare_scaled _ _ (Prim2SF_valid x) (Prim2SF_valid y) Hx Hy).
  unfold Z.leb. destruct (scaled (Prim2SF x) ?= scaled (Prim2SF y)); reflexivity.
Qed.

(** A whole number below 2^53 is a number of the format. *)
Lemma whole_repr_mag (p : positive) : Zpos p < 2 ^ 53 -> repr_mag (mag p 0).
Proof.
  intros Hp. pose proof (digits_bounds p) as Hd.
  assert (Hd53 : Zpos (digits2_pos p) <= 53).
  { destruct (Z_le_gt_dec (Zpos (digits2_pos p)) 53) as [H | H]; [exact H | exfalso].
    assert (2 ^ 53 <= 2 ^ (Zpos (digits2_pos p) - 1)) by (apply Z.pow_le_mono_r; lia).
    lia. }
  right.
  destruct (Z.eq_dec (Zpos (digits2_pos p)) 53) as [E | E].
  - exists p, 0. split; [ | reflexivity].
    unfold bounded, canonical_mantissa. rewrite FloatExact.fexp_eq, E. reflexivity.
  - destruct (53 - Zpos (digits2_pos p)) as [ | j | j] eqn:Ej; [lia | | lia].
    destruct (iter_xO p j) as (Hv & Hdj).
    exists (Pos.iter xO p j), (- Zpos j). split.
    + unfold bounded, canonical_mantissa. rewrite FloatExact.fexp_eq, Hdj, Pos2Z.inj_add.
      apply andb_true_intro. split; [apply Z.eqb_eq | apply Z.leb_le; unfold emax, prec]; lia.
    + unfold mag. rewrite Hv, <- Z.mul_assoc. f_equal.
      rewrite <- pow_split by lia. f_equal. lia.
Qed.

(** The length of an array, as a number: a positive value of the format
    with the exponent of a whole number. *)
Lemma count_float (n : Z) :
  1 <= n < 2 ^ 32 ->
  exists my ey,
    Prim2SF (of_uint63 (Uint63.of_Z n)) = S754_finite false my ey
    /\ bounded prec emax my ey = true
    /\ ey <= 0
    /\ Zpos my = n * 2 ^ (- ey).
Proof.
  intros Hn.
  pose proof (Prim2SF_valid (of_uint63 (Uint63.of_Z n))) as Hv.
  rewrite of_uint63_spec in *.
  assert (Eto : Uint63Axioms.to_Z (Uint63.of_Z n) = n).
  { rewrite Uint63.of_Z_spec. apply Z.mod_small.
    split; [lia | ]. apply Z.lt_trans with (2 ^ 32); [lia | reflexivity]. }
  rewrite Eto in *. destruct n as [ | p | p]; [lia | | lia].
  cbn [binary_normalize] in *.
  assert (Hp53 : Zpos p < 2 ^ 53) by (apply Z.lt_trans with (2 ^ 32); [lia | reflexivity]).
  destruct (binary_round_spec false p 0 ltac:(lia)) as (G & HG & Hlo & Hhi & HR).
  pose proof (whole_repr_mag p Hp53) as Hrep.
  assert (EG : G = mag p 0).
  { apply Z.le_antisymm; [apply Hhi | apply Hlo]; try exact Hrep; lia. }
  pose proof (repr_mag_lt _ Hrep) as Hlt.
  destruct HR as [(Hinf & _) | (Hreal & Hs)]; [lia | ].
  rewrite EG in Hs. cbn [cond_Zopp] in Hs.
  assert (Hpos : 0 < mag p 0) by (unfold mag; cbn; lia).
  destruct (binary_round prec emax false p 0) as [s | s | | s my ey];
    try contradiction; cbn [scaled] in Hs; [lia | ].
  destruct (mag_bounds my ey Hv) as (Hey & Hm & Hnorm).
  destruct s; cbn [cond_Zopp] in Hs; [lia | ].
  exists my, ey. split; [reflexivity | ]. split; [exact Hv | ].
  assert (Hey0 : ey <= 0).
  { destruct (Z_le_gt_dec ey 0) as [H | H]; [exact H | exfalso].
    specialize (Hnorm ltac:(lia)). unfold mag in Hs at 2. cbn [Z.add] in Hs.
    assert (2 ^ 1 * 2 ^ 1074 <= 2 ^ (ey + 1074)).
    { rewrite <- pow_split by lia. apply Z.pow_le_mono_r; lia. }
    assert (0 < 2 ^ 1074) by (apply pow_pos; lia).
    change (2 ^ 1) with 2 in *.
    assert (2 ^ 52 * (2 * 2 ^ 1074) <= 2 ^ 52 * 2 ^ (ey + 1074))
      by (apply Z.mul_le_mono_nonneg_l; lia).
    assert (Zpos p * 2 ^ 1074 < 2 ^ 53 * 2 ^ 1074) by (apply Z.mul_lt_mono_pos_r; lia).
    change (2 ^ 53) with (2 ^ 52 * 2) in *. lia. }
  split; [exact Hey0 | ].
  unfold mag in Hs. cbn [Z.add] in Hs.
  replace 1074 with (- ey + (ey + 1074)) in Hs at 2 by lia.
  rewrite (pow_split (- ey) (ey + 1074)) in Hs by lia.
  assert (0 < 2 ^ (ey + 1074)) by (apply pow_pos; lia).
  apply (Z.mul_reg_r _ _ (2 ^ (ey + 1074))); [lia | ]. rewrite Hs. ring.
Qed.

Lemma div_between (x : float) (n Lo Hi : Z) :
  is_real (Prim2SF x) -> 1 <= n < 2 ^ 32 ->
  repr Lo -> repr Hi ->
  n * Lo <= units x <= n * Hi ->
  is_real (Prim2SF (x / of_uint63 (Uint63.of_Z n))%float)
  /\ Lo <= units (x / of_uint63 (Uint63.of_Z n))%float <= Hi.
Proof.
  intros Hx Hn HLo HHi Hb. unfold units in *. rewrite div_spec.
  destruct (count_float n Hn) as (my & ey & -> & Hby & Hey & Hmy).
  apply (SFdiv_between _ my ey n); auto using Prim2SF_valid. lia.
Qed.

(** The sum of numbers between [L] and [U], taken from a sum of [j] of
    them, stays between the multiples of [L] and [U] as long as those are
    numbers of the format. *)
Lemma sum_between (L U : Z) (col : list float) :
  forall (acc : float) (j : nat),
    Forall (fun x => is_real (Prim2SF x) /\ L <= units x <= U) col ->
    (forall k : nat, (1 <= k <= j + List.length col)%nat ->
                     repr (Z.of_nat k * L) /\ repr (Z.of_nat k * U)) ->
    is_real (Prim2SF acc) ->
    Z.of_nat j * L <= units acc <= Z.of_nat j * U ->
    is_real (Prim2SF (fold_left PrimFloat.add col acc))
    /\ Z.of_nat (j + List.length col) * L
       <= units (fold_left PrimFloat.add col acc)
       <= Z.of_nat (j + List.length col) * U.
Proof.
  induction col as [ | x col IH]; intros acc j Hall Hrep Hacc Hb.
  - cbn [fold_left List.length]. rewrite Nat.add_0_r. split; assumption.
  - inversion Hall as [ | ? ? (Hx & Hxb) Hrest]; subst.
    cbn [fold_left List.length] in *.
    destruct (Hrep (S j) ltac:(lia)) as (HrL & HrU).
    destruct (add_between acc x (Z.of_nat (S j) * L) (Z.of_nat (S j) * U) Hacc Hx HrL HrU)
      as (Hr & Hb'); [lia | ].
    replace (j + S (List.length col))%nat with (S j + List.length col)%nat by lia.
    apply IH; try assumption.
    intros k Hk. apply Hrep. lia.
Qed.

End FloatBounds.

(** ** Bounds on the statistics *)

Section Bounds.

Variable Math_pow : float -> float -> float.

(** ECMA-262 fixes the power of a zero base with a positive even exponent:
    it is +0. *)
Hypothesis pow_zero : Math_pow 0 2 = 0.
Hypothesis pow_neg_zero : Math_pow neg_zero 2 = 0.

Import ArrayFacts.

Lemma Forall_map_from {A B : Type} (P : B -> Prop) (f : A -> nat -> B) (a : list A) :
  forall i,
    (forall k x, nth_error a k = Some x -> P (f x (i + k)%nat)) ->
    Forall P (JS.map_from f i a).
Proof.
  induction a as [ | y a IH]; intros i H; cbn; constructor.
  - specialize (H O y eq_refl). rewrite Nat.add_0_r in H. exact H.
  - apply IH. intros k x Hk. specialize (H (S k) x Hk).
    replace (S i + k)%nat with (i + S k)%nat by lia. exact H.
Qed.

Lemma Forall_map {A B : Type} (P : B -> Prop) (f : A -> nat -> B) (a : list A) :
  (forall k x, nth_error a k = Some x -> P (f x k)) -> Forall P (JS.map f a).
Proof. intros H. apply Forall_map_from. exact H. Qed.

Lemma column_not_nan (data : list InputData) (i : nat) (col : list float) :
  Formulas.is_column data i col ->
  Forall (fun d => Forall (fun x => is_nan x = false) (values d)) data ->
  Forall (fun x => is_nan x = false) col.
Proof.
  induction 1 as [ | d x data col Hx _ IH]; intros Hall; constructor;
    inversion Hall as [ | ? ? Hd Hrest]; subst.
  - rewrite Forall_forall in Hd. apply Hd. exact (nth_error_In _ _ Hx).
  - apply IH. exact Hrest.
Qed.

(** The statistics of a dimension of a single record holding [x] there. *)
Lemma dimensionStats_single (d : InputData) (k : nat) (x : float) :
  nth_error (values d) k = Some x ->
  dimensionStats Math_pow [d] k
  = {| avg := (0 + x) / 1;
       min := JS.Math_min [Some x];
       max := JS.Math_max [Some x];
       stdDev := PrimFloat.sqrt ((0 + Math_pow (x - (0 + x) / 1) 2) / 1) |}.
Proof.
  intros H. unfold dimensionStats, column. cbn [List.map]. unfold JS.index. rewrite H.
  reflexivity.
Qed.

(** On a column without NaN the least element is at or below the greatest. *)
Lemma min_leb_max (data : list InputData) (i : nat) :
  data <> [] ->
  Forall (fun d => i < List.length (values d)) data ->
  Forall (fun d => Forall (fun x => is_nan x = false) (values d)) data ->
  (min (dimensionStats Math_pow data i) <=? max (dimensionStats Math_pow data i)) = true.
Proof.
  intros Hne Hb Hnan.
  destruct (column_in_bounds data i Hb) as (col & Hc & E).
  destruct (dimensionStats_formulas Math_pow data i col E) as (_ & _ & Hmin & Hmax).
  assert (Hcol : col <> []).
  { intros ->. apply is_column_length in Hc. destruct data; [congruence | discriminate Hc]. }
  pose proof (column_not_nan data i col Hc Hnan) as Hn.
  destruct (MinMax.Math_min_is_minimum col Hcol Hn) as (Hin & _).
  destruct (MinMax.Math_max_is_maximum col Hcol Hn) as (_ & Hup).
  rewrite Hmin, Hmax. apply Hup. exact Hin.
Qed.

(** With a single record the average is between the least and the greatest
    element, all three being the record's own value. *)
Lemma single_average_between (d : InputData) (k : nat) (x : float) :
  nth_error (values d) k = Some x ->
  is_nan x = false ->
  (min (dimensionStats Math_pow [d] k) <=? avg (dimensionStats Math_pow [d] k)) = true
  /\ (avg (dimensionStats Math_pow [d] k) <=? max (dimensionStats Math_pow [d] k)) = true.
Proof.
  intros Hx Hn. rewrite (dimensionStats_single d k x Hx). cbn [avg min max].
  assert (Hne : [x] <> []) by discriminate.
  assert (Hall : Forall (fun y => is_nan y = false) [x]) by (constructor; auto).
  destruct (MinMax.Math_min_is_minimum [x] Hne Hall) as ([Hmin | []] & _).
  destruct (MinMax.Math_max_is_maximum [x] Hne Hall) as ([Hmax | []] & _).
  cbn [List.map] in Hmin, Hmax. rewrite <- Hmin, <- Hmax.
  exact (FloatExact.mean_of_one_between x Hn).
Qed.

Lemma column_all (P : float -> Prop) (data : list InputData) (i : nat) (col : list float) :
  Formulas.is_column data i col ->
  Forall (fun d => Forall P (values d)) data ->
  Forall P col.
Proof.
  induction 1 as [ | d x data col Hx _ IH]; intros Hall; constructor;
    inversion Hall as [ | ? ? Hd Hrest]; subst.
  - rewrite Forall_forall in Hd. apply Hd. exact (nth_error_In _ _ Hx).
  - apply IH. exact Hrest.
Qed.

(** When every value, times every count up to the number of records, is a
    binary64 number, no partial sum leaves the multiples of the least and of
    the greatest element, and the average is between the two. *)
Lemma exact_average_between (data : list InputData) (i : nat) :
  data <> [] ->
  Forall (fun d => i < List.length (values d)) data ->
  (Z.of_nat (List.length data) < 2 ^ 32)%Z ->
  Forall (fun d => Forall (exact_multiples (List.length data)) (values d)) data ->
  (min (dimensionStats Math_pow data i) <=? avg (dimensionStats Math_pow data i)) = true
  /\ (avg (dimensionStats Math_pow data i) <=? max (dimensionStats Math_pow data i)) = true.
Proof.
  intros Hne Hb Hlen Hex.
  destruct (column_in_bounds data i Hb) as (col & Hc & E).
  destruct (dimensionStats_formulas Math_pow data i col E) as (Havg & _ & Hmin & Hmax).
  pose proof (is_column_length data i col Hc) as Hn.
  assert (Hcol : col <> []) by (intros ->; destruct data; [congruence | discriminate Hn]).
  pose proof (column_all _ data i col Hc Hex) as Hm. rewrite <- Hn in *.
  assert (Hreal : Forall (fun x => is_real (Prim2SF x)) col).
  { eapply Forall_impl; [ | exact Hm]. intros x (Hf & _).
    exact (FloatBounds.finite_is_real x Hf). }
  assert (Hnan : Forall (fun x => is_nan x = false) col).
  { eapply Forall_impl; [ | exact Hreal]. exact FloatBounds.real_not_nan. }
  destruct (MinMax.Math_min_is_minimum col Hcol Hnan) as (Hmn_in & Hmn).
  destruct (MinMax.Math_max_is_maximum col Hcol Hnan) as (Hmx_in & Hmx).
  rewrite Hmin, Hmax, Havg.
  set (mn := JS.Math_min (List.map Some col)) in *.
  set (mx := JS.Math_max (List.map Some col)) in *.
  rewrite Forall_forall in Hreal, Hm.
  pose proof (Hreal mn Hmn_in) as Hrmn. pose proof (Hreal mx Hmx_in) as Hrmx.
  assert (Hrep : forall k : nat, (1 <= k <= 0 + List.length col)%nat ->
                   repr (Z.of_nat k * units mn) /\ repr (Z.of_nat k * units mx)).
  { intros k Hk. split; apply FloatBounds.representable_repr.
    - apply (proj2 (Hm mn Hmn_in)). lia.
    - apply (proj2 (Hm mx Hmx_in)). lia. }
  assert (Hbounds : Forall (fun x => is_real (Prim2SF x)
                                     /\ (units mn <= units x <= units mx)%Z) col).
  { apply Forall_forall. intros x Hx. pose proof (Hreal x Hx) as Hrx.
    split; [exact Hrx | ]. split; apply Z.leb_le.
    - rewrite <- (FloatBounds.leb_units mn x Hrmn Hrx). apply Hmn. exact Hx.
    - rewrite <- (FloatBounds.leb_units x mx Hrx Hrmx). apply Hmx. exact Hx. }
  destruct (FloatBounds.sum_between (units mn) (units mx) col 0 0 Hbounds Hrep I)
    as (Hrs & Hbs); [cbn; lia | ].
  assert (Hcount : (1 <= Z.of_nat (List.length col) < 2 ^ 32)%Z)
    by (destruct col; [congruence | cbn [List.length] in *; lia]).
  destruct (Hrep 1%nat ltac:(destruct col; [congruence | cbn [List.length]; lia]))
    as (HrL & HrU).
  rewrite Z.mul_1_l in HrL, HrU.
  destruct (FloatBounds.div_between _ _ (units mn) (units mx) Hrs Hcount HrL HrU Hbs)
    as (Hra & Hba).
  unfold Formulas.average, Formulas.sum, Formulas.count, JS.length.
  rewrite (FloatBounds.leb_units _ _ Hrmn Hra), (FloatBounds.leb_units _ _ Hra Hrmx).
  split; apply Z.leb_le; lia.
Qed.

Lemma ltb_same_exponent (s : bool) (m c : positive) (e : Z) :
  SFltb (SFabs (S754_finite s m e)) (S754_finite false c e) = true ->
  (Zpos m < Zpos c)%Z.
Proof.
  unfold SFltb. cbn [SFabs SFcompare]. rewrite Z.compare_refl.
  intros Hlt. apply Pos2Z.pos_lt_pos. unfold Pos.lt, Pos.compare.
  destruct (Pos.compare_cont Eq m c); try discriminate Hlt. reflexivity.
Qed.

(** A number below 2^1023 in magnitude can be doubled without leaving the
    format. *)
Lemma double_representable (x : float) :
  (abs x <? 0x1p+1023) = true -> exact_multiples 2 x.
Proof.
  intros Hlt. rewrite FloatAxioms.ltb_spec, abs_spec in Hlt.
  change (Prim2SF 0x1p+1023) with (S754_finite false 4503599627370496 971) in Hlt.
  pose proof (Prim2SF_valid x) as Hv.
  assert (Hone : forall X : spec_float,
             valid_binary X = true -> is_real X ->
             is_finite (SF2Prim X) = true /\ units (SF2Prim X) = scaled X).
  { intros X HvX HrX. unfold units, is_finite, is_nan, is_infinity.
    rewrite !FloatAxioms.eqb_spec, abs_spec, (Prim2SF_SF2Prim X HvX).
    change (Prim2SF infinity) with (S754_infinity false).
    split; [ | reflexivity].
    destruct X as [s | s | | s m e]; try contradiction; destruct s; cbn;
      rewrite ?Z.compare_refl, ?Pos.compare_cont_refl; reflexivity. }
  destruct (Prim2SF x) as [s | s | | s m e] eqn:E; try discriminate Hlt.
  - assert (Hf : is_finite x = true /\ units x = 0%Z).
    { rewrite <- (SF2Prim_Prim2SF x), E. apply Hone; [reflexivity | exact I]. }
    destruct Hf as (Hf & Hu). split; [exact Hf | ].
    intros k _. exists x. rewrite Hu. split; [exact Hf | lia].
  - assert (Hf : is_finite x = true /\ units x = scaled (S754_finite s m e)).
    { rewrite <- (SF2Prim_Prim2SF x), E. apply Hone; [exact Hv | exact I]. }
    destruct Hf as (Hf & Hu). split; [exact Hf | ].
    destruct (FloatExact.canonical_cases m e Hv) as (He & Hc).
    assert (He970 : (e <= 970)%Z).
    { destruct (Z_le_gt_dec e 970) as [H | H]; [exact H | exfalso].
      assert (e = 971%Z) by lia. subst e.
      assert (Hd : Zpos (digits2_pos m) = 53%Z) by lia.
      pose proof (Rounding.digits_bounds m) as Hdb. rewrite Hd in Hdb.
      pose proof (ltb_same_exponent s m _ _ Hlt) as H1.
      change (2 ^ (53 - 1))%Z with 4503599627370496%Z in Hdb.
      destruct Hdb as [Hlo _]. exact (Z.lt_irrefl _ (Z.le_lt_trans _ _ _ Hlo H1)). }
    intros k Hk. assert (Hk12 : k = 1%nat \/ k = 2%nat) by lia.
    destruct Hk12 as [-> | ->].
    + exists x. split; [exact Hf | lia].
    + destruct Hc as [(-> & Hd) | (Hn & Hd)].
      * destruct (Z.eq_dec (Zpos (digits2_pos m)) 53) as [Hd53 | Hd53].
        -- assert (HvX : valid_binary (S754_finite s m (-1073)) = true).
           { unfold bounded, canonical_mantissa. cbn [valid_binary].
             unfold bounded, canonical_mantissa. rewrite FloatExact.fexp_eq, Hd53.
             reflexivity. }
           exists (SF2Prim (S754_finite s m (-1073))).
           destruct (Hone _ HvX I) as (H1 & H2). split; [exact H1 | ].
           rewrite H2, Hu. cbn [scaled]. unfold mag.
           change (2 ^ (-1073 + 1074))%Z with (2 * 2 ^ (-1074 + 1074))%Z.
           destruct s; cbn [cond_Zopp]; lia.
        -- assert (HvX : valid_binary (S754_finite s m~0 (-1074)) = true).
           { cbn [valid_binary]. unfold bounded, canonical_mantissa.
             rewrite FloatExact.fexp_eq. cbn [digits2_pos]. rewrite Pos2Z.inj_succ.
             apply andb_true_intro. split; [apply Z.eqb_eq; lia | reflexivity]. }
           exists (SF2Prim (S754_finite s m~0 (-1074))).
           destruct (Hone _ HvX I) as (H1 & H2). split; [exact H1 | ].
           rewrite H2, Hu. cbn [scaled]. unfold mag. rewrite Pos2Z.inj_xO.
           destruct s; cbn [cond_Zopp]; lia.
      * assert (HvX : valid_binary (S754_finite s m (e + 1)) = true).
        { cbn [valid_binary]. unfold bounded, canonical_mantissa.
          rewrite FloatExact.fexp_eq, Hd.
          apply andb_true_intro.
          split; [apply Z.eqb_eq | apply Z.leb_le; unfold emax, prec]; lia. }
        exists (SF2Prim (S754_finite s m (e + 1))).
        destruct (Hone _ HvX I) as (H1 & H2). split; [exact H1 | ].
        rewrite H2, Hu. cbn [scaled]. unfold mag.
        replace (e + 1 + 1074)%Z with (1 + (e + 1074))%Z by lia.
        rewrite (Rounding.pow_split 1 (e + 1074)) by lia. change (2 ^ 1)%Z with 2%Z.
        change (Z.of_nat 2) with 2%Z. destruct s; cbn [cond_Zopp]; ring.
Qed.

(** C6, amended: for a non-empty dataset whose records all have [D] values,
    none of them NaN, every computed entry has its minimum at or below its
    maximum.  The average is between the two when the dataset has exactly
    one record; when it has two records whose values are below 2^1023 in
    magnitude; and, for any number of records an array can hold (fewer than
    2^32), when every value times every count up to that number is a
    binary64 number, so that no partial sum rounds past the multiples of the
    least and the greatest element. *)
Theorem minimum_maximum_order (data : list InputData) (D : nat) :
  data <> [] ->
  Forall (fun d => List.length (values d) = D) data ->
  Forall (fun d => Forall (fun x => is_nan x = false) (values d)) data ->
  exists stats,
    calculateStats Math_pow data = Some stats
    /\ List.length stats = D
    /\ Forall (fun st => (min st <=? max st) = true) stats
    /\ (List.length data = 1%nat ->
        Forall (fun st => (min st <=? avg st) = true /\ (avg st <=? max st) = true) stats)
    /\ (List.length data = 2%nat ->
        Forall (fun d => Forall (fun x => (abs x <? 0x1p+1023) = true) (values d)) data ->
        Forall (fun st => (min st <=? avg st) = true /\ (avg st <=? max st) = true) stats)
    /\ ((Z.of_nat (List.length data) < 2 ^ 32)%Z ->
        Forall (fun d => Forall (exact_multiples (List.length data)) (values d)) data ->
        Forall (fun st => (min st <=? avg st) = true /\ (avg st <=? max st) = true) stats).
Proof.
  intros Hne Hu Hnan. destruct data as [ | first rest]; [congruence | ].
  assert (Hf : List.length (values first) = D) by (inversion Hu; assumption).
  assert (Hin : forall k x, nth_error (values first) k = Some x ->
                  Forall (fun d => k < List.length (values d)) (first :: rest)).
  { intros k x Hk. apply (uniform_in_bounds _ D); [exact Hu | ].
    rewrite <- Hf. apply nth_error_Some. congruence. }
  assert (Hgen : (Z.of_nat (List.length (first :: rest)) < 2 ^ 32)%Z ->
                 Forall (fun d => Forall (exact_multiples (List.length (first :: rest)))
                                         (values d)) (first :: rest) ->
                 Forall (fun st => (min st <=? avg st) = true /\ (avg st <=? max st) = true)
                        (JS.map (fun _ index => dimensionStats Math_pow (first :: rest) index)
                                (values first))).
  { intros Hlen Hex. apply Forall_map. intros k x Hk.
    apply exact_average_between; [discriminate | exact (Hin k x Hk) | exact Hlen | exact Hex]. }
  eexists. split; [reflexivity | ].
  split; [rewrite map_length; exact Hf | ].
  split; [ | split; [ | split]].
  - apply Forall_map. intros k x Hk.
    apply min_leb_max; [discriminate | exact (Hin k x Hk) | exact Hnan].
  - intros Hone. destruct rest; [ | discriminate Hone].
    apply Forall_map. intros k x Hk. apply (single_average_between first k x Hk).
    inversion Hnan as [ | ? ? Hd _]; subst.
    rewrite Forall_forall in Hd. apply Hd. exact (nth_error_In _ _ Hk).
  - intros Htwo Hsmall. apply Hgen.
    + rewrite Htwo. reflexivity.
    + rewrite Htwo. eapply Forall_impl; [ | exact Hsmall].
      intros d Hd. eapply Forall_impl; [ | exact Hd]. exact double_representable.
  - exact Hgen.
Qed.

(** C7, amended: for a dataset of exactly one record whose values are all
    finite, [calculateStats] returns a standard deviation of +0 for every
    dimension. *)
Theorem single_record_stdDev_zero (d : InputData) :
  Forall (fun x => is_finite x = true) (values d) ->
  exists stats,
    calculateStats Math_pow [d] = Some stats
    /\ List.length stats = List.length (values d)
    /\ Forall (fun st => stdDev st = 0) stats.
Proof.
  intros Hfin. eexists. split; [reflexivity | ].
  split; [apply map_length | ].
  apply Forall_map. intros k x Hk.
  rewrite (dimensionStats_single d k x Hk). cbn [stdDev].
  assert (Hx : is_finite x = true).
  { rewrite Forall_forall in Hfin. apply Hfin. exact (nth_error_In _ _ Hk). }
  destruct (FloatExact.deviation_of_one x Hx) as [E | E]; rewrite E.
  - rewrite pow_zero. reflexivity.
  - rewrite pow_neg_zero. reflexivity.
Qed.

(** An infinite or NaN value leaves a NaN deviation, whatever the record:
    the difference to the mean is NaN, and so is its power. *)
Lemma single_record_stdDev_nan (d : InputData) (k : nat) (x : float) :
  Math_pow nan 2 = nan ->
  nth_error (values d) k = Some x ->
  is_finite x = false ->
  stdDev (dimensionStats Math_pow [d] k) = nan.
Proof.
  intros Hpow Hk Hx. rewrite (dimensionStats_single d k x Hk). cbn [stdDev].
  assert (E : x - (0 + x) / 1 = nan).
  { unfold is_finite in Hx. apply negb_false_iff in Hx. apply orb_prop in Hx.
    destruct Hx as [Hx | Hx].
    - rewrite (FloatOrder.nan_is_nan x Hx). reflexivity.
    - destruct (Prim2SF x) as [s | s | | s m e] eqn:Es.
      + rewrite (FloatExact.SF_zero x s Es) in Hx. destruct s; discriminate Hx.
      + rewrite (FloatExact.SF_infinity x s Es). destruct s; reflexivity.
      + assert (Hn : is_nan x = true).
        { destruct (is_nan x) eqn:En; [reflexivity | ].
          apply FloatOrder.is_nan_SF in En. congruence. }
        rewrite (FloatOrder.nan_is_nan x Hn). reflexivity.
      + exfalso. revert Hx. unfold is_infinity.
        rewrite FloatAxioms.eqb_spec, abs_spec, Es. cbn. discriminate. }
  rewrite E, Hpow. reflexivity.
Qed.

End Bounds.

(** ** The summary text *)

Module Text.

Lemma contains_unfold (needle hay : string) :
  contains needle hay
  = starts_with needle hay
    || match hay with
       | EmptyString => false
       | String _ rest => contains needle rest
       end.
Proof. destruct hay; reflexivity. Qed.

Lemma starts_with_app (needle post : string) : starts_with needle (needle ++ post) = true.
Proof.
  induction needle as [ | c needle IH]; cbn; [reflexivity | ].
  rewrite Ascii.eqb_refl. exact IH.
Qed.

Lemma contains_here (needle post : string) : contains needle (needle ++ post) = true.
Proof. rewrite contains_unfold, starts_with_app. reflexivity. Qed.

Lemma contains_later (needle pre rest : string) :
  contains needle rest = true -> contains needle (pre ++ rest) = true.
Proof.
  intros H. induction pre as [ | c pre IH]; cbn; [exact H | ].
  rewrite IH. apply orb_true_r.
Qed.

Lemma starts_with_agree (segment : string) :
  forall needle rest,
    starts_with needle (segment ++ rest) = true -> agree needle segment = true.
Proof.
  induction segment as [ | y segment IH]; intros needle rest H.
  - destruct needle; reflexivity.
  - destruct needle as [ | x needle]; [reflexivity | ].
    cbn in H. apply andb_prop in H. destruct H as [H1 H2].
    cbn. rewrite H1. exact (IH needle rest H2).
Qed.

(** A segment in which no occurrence can start may be dropped from the
    front of the text searched. *)
Lemma contains_skip (needle segment rest : string) :
  no_start needle segment = true ->
  contains needle (segment ++ rest) = contains needle rest.
Proof.
  induction segment as [ | c segment IH]; intros H; [reflexivity | ].
  cbn [no_start] in H. apply andb_prop in H. destruct H as [H1 H2].
  change ((String c segment ++ rest)%string) with (String c (segment ++ rest)%string).
  rewrite contains_unfold, (IH H2).
  destruct (starts_with needle (String c (segment ++ rest))) eqn:E; [ | reflexivity].
  apply (starts_with_agree (String c segment)) in E. rewrite E in H1. discriminate H1.
Qed.

(** So may a segment that lacks the first character of the needle. *)
Lemma no_start_without (c0 : ascii) (needle segment : string) :
  string_forall (fun c => negb (Ascii.eqb c0 c)) segment = true ->
  no_start (String c0 needle) segment = true.
Proof.
  induction segment as [ | c segment IH]; intros H; [reflexivity | ].
  cbn in H. apply andb_prop in H. destruct H as [H1 H2].
  cbn. apply negb_true_iff in H1. rewrite H1. cbn. exact (IH H2).
Qed.

Lemma string_forall_impl (p q : ascii -> bool) (s : string) :
  (forall c, p c = true -> q c = true) ->
  string_forall p s = true -> string_forall q s = true.
Proof.
  intros Hpq. induction s as [ | c s IH]; cbn; [reflexivity | ].
  intros H. apply andb_prop in H. destruct H as [H1 H2].
  rewrite (Hpq c H1), (IH H2). reflexivity.
Qed.

Lemma string_forall_app (p : ascii -> bool) (a b : string) :
  string_forall p (a ++ b) = string_forall p a && string_forall p b.
Proof.
  induction a as [ | c a IH]; cbn; [reflexivity | ].
  rewrite IH. apply andb_assoc.
Qed.

(** No number is printed with a capital T. *)
Lemma number_char_not_T (c : ascii) :
  number_char c = true -> negb (Ascii.eqb "T" c) = true.
Proof.
  intros H. destruct (Ascii.eqb_spec "T"%char c) as [<- | ]; [discriminate H | reflexivity].
Qed.

Lemma contains_skip_number (needle segment rest : string) :
  string_forall number_char segment = true ->
  contains (String "T" needle) (segment ++ rest) = contains (String "T" needle) rest.
Proof.
  intros H. apply contains_skip, no_start_without.
  exact (string_forall_impl _ _ _ number_char_not_T H).
Qed.

Lemma uint_alphabet (d : Decimal.uint) :
  string_forall number_char (DecimalString.NilEmpty.string_of_uint d) = true.
Proof. induction d; cbn; auto. Qed.

Lemma string_of_uint_alphabet (d : Decimal.uint) :
  string_forall number_char (DecimalString.NilZero.string_of_uint d) = true.
Proof. destruct d; try reflexivity; apply (uint_alphabet (_ d)). Qed.

Lemma string_of_nat_alphabet (n : nat) :
  string_forall number_char (JS.string_of_nat n) = true.
Proof. apply string_of_uint_alphabet. Qed.

End Text.

Section Summary.

Variable toFixed : float -> nat -> string.

(** [toFixed] prints a number: digits, a sign, a point, or the letters of
    [NaN], [Infinity] and the exponent notation. *)
Hypothesis toFixed_alphabet :
  forall x fractionDigits, string_forall number_char (toFixed x fractionDigits) = true.

Ltac skip_segments :=
  repeat first
    [ rewrite Text.contains_skip by reflexivity
    | rewrite Text.contains_skip_number by apply toFixed_alphabet
    | rewrite Text.contains_skip_number by apply Text.string_of_nat_alphabet ].

(** The summary of an entry holds exactly one of the two sentences: the
    one for low variation when [stdDev < 1] and the other one otherwise. *)
Lemma summaryText_phrase (stat : Stats) (index : nat) :
  contains low_variation_text (summaryText toFixed stat index) = (stdDev stat <? 1)
  /\ contains spread_out_text (summaryText toFixed stat index) = negb (stdDev stat <? 1).
Proof.
  unfold summaryText, isLowVariation.
  destruct (stdDev stat <? 1); cbn [negb]; split.
  - do 16 apply Text.contains_later. apply Text.contains_here.
  - unfold spread_out_text at 1. skip_segments. reflexivity.
  - unfold low_variation_text at 1. skip_segments. reflexivity.
  - do 16 apply Text.contains_later. apply Text.contains_here.
Qed.

(** C4: the summary written for an entry of the statistics holds the
    low-variation sentence exactly when [stdDev < 1] and the spread-out
    sentence exactly when not; so 0.5 gives the former and 2 the latter. *)
Theorem generateSummary_variation_threshold
        (stats : list Stats) (k : nat) (stat : Stats) :
  nth_error stats k = Some stat ->
  exists summaries text,
    generateSummary toFixed (Some stats) = JS.Normal summaries
    /\ nth_error summaries k = Some text
    /\ contains low_variation_text text = (stdDev stat <? 1)
    /\ contains spread_out_text text = negb (stdDev stat <? 1)
    /\ (stdDev stat = 0.5 ->
        contains low_variation_text text = true /\ contains spread_out_text text = false)
    /\ (stdDev stat = 2 ->
        contains low_variation_text text = false /\ contains spread_out_text text = true).
Proof.
  intros Hk. exists (JS.map (summaryText toFixed) stats), (summaryText toFixed stat k).
  destruct (summaryText_phrase stat k) as (Hlow & Hspread).
  split; [reflexivity | ].
  split; [exact (ArrayFacts.map_nth _ _ _ _ Hk) | ].
  split; [exact Hlow | ].
  split; [exact Hspread | ].
  rewrite Hlow, Hspread. split; intros ->; split; reflexivity.
Qed.

End Summary.

(** ** The reference instances *)

Module Reference.

Lemma zeros_alphabet (k : nat) : string_forall number_char (zeros k) = true.
Proof. induction k as [ | k IH]; cbn; [reflexivity | exact IH]. Qed.

Lemma substring_alphabet (p : ascii -> bool) (s : string) :
  string_forall p s = true ->
  forall n m, string_forall p (substring n m s) = true.
Proof.
  induction s as [ | c s IH]; intros H n m.
  - destruct n, m; reflexivity.
  - cbn in H. apply andb_prop in H. destruct H as [H1 H2].
    destruct n as [ | n]; [destruct m as [ | m] | ]; cbn; [reflexivity | | apply IH; exact H2].
    rewrite H1. apply IH. exact H2.
Qed.

Lemma with_point_alphabet (m : string) (f : nat) :
  string_forall number_char m = true ->
  string_forall number_char (with_point m f) = true.
Proof.
  intros H. unfold with_point. destruct (Nat.eqb f 0); [exact H | ].
  set (m' := if Nat.leb (String.length m) f then _ else m).
  assert (H' : string_forall number_char m' = true).
  { unfold m'. destruct (Nat.leb (String.length m) f); [ | exact H].
    rewrite Text.string_forall_app, zeros_alphabet, H. reflexivity. }
  rewrite !Text.string_forall_app, !substring_alphabet by exact H'. reflexivity.
Qed.

Lemma decimal_alphabet (n : Z) : string_forall number_char (decimal n) = true.
Proof. apply Text.string_of_uint_alphabet. Qed.

(** The reference [toFixed] prints with the characters of numbers only. *)
Lemma toFixed_ref_alphabet (x : float) (fractionDigits : nat) :
  string_forall number_char (toFixed_ref x fractionDigits) = true.
Proof.
  unfold toFixed_ref. destruct (Prim2SF x) as [s | s | | s m e].
  - apply with_point_alphabet. reflexivity.
  - destruct s; reflexivity.
  - reflexivity.
  - rewrite Text.string_forall_app, with_point_alphabet by apply decimal_alphabet.
    destruct s; reflexivity.
Qed.

End Reference.

(** ** The statements at sample inputs *)

(** The worked example of the specification. *)
Example example_ab_stats :
  calculateStats Math_pow_ref example_ab
  = Some [ {| avg := 2; min := 1; max := 3; stdDev := 1 |};
           {| avg := 3; min := 2; max := 4; stdDev := 1 |} ].
Proof. reflexivity. Qed.

(** The formulas on the first dimension of the worked example. *)
Lemma calculateStats_formulas_witness :
  exists stats st col,
    calculateStats Math_pow_ref example_ab = Some stats
    /\ nth_error stats 0 = Some st
    /\ Formulas.is_column example_ab 0 col
    /\ avg st = Formulas.average col
    /\ stdDev st = Formulas.stdDeviation Math_pow_ref col
    /\ (Forall (fun x => is_nan x = false) col ->
        Formulas.is_minimum (min st) col /\ Formulas.is_maximum (max st) col).
Proof.
  apply (calculateStats_formulas Math_pow_ref example_ab 2 0);
    [discriminate | repeat constructor | lia].
Defined.

(** The worked example has two dimensions and two entries. *)
Lemma calculateStats_one_per_dimension_witness :
  exists stats,
    calculateStats Math_pow_ref example_ab = Some stats
    /\ List.length stats = 2%nat
    /\ forall i, i < 2 -> nth_error stats i = Some (dimensionStats Math_pow_ref example_ab i).
Proof.
  apply (calculateStats_one_per_dimension Math_pow_ref example_ab 2);
    [discriminate | repeat constructor].
Defined.

(** The summary of the second sample entry, whose deviation is two. *)
Lemma generateSummary_variation_threshold_witness :
  exists summaries text,
    generateSummary toFixed_ref (Some [stat_half; stat_two]) = JS.Normal summaries
    /\ nth_error summaries 1 = Some text
    /\ contains low_variation_text text = (stdDev stat_two <? 1)
    /\ contains spread_out_text text = negb (stdDev stat_two <? 1)
    /\ (stdDev stat_two = 0.5 ->
        contains low_variation_text text = true /\ contains spread_out_text text = false)
    /\ (stdDev stat_two = 2 ->
        contains low_variation_text text = false /\ contains spread_out_text text = true).
Proof.
  apply (generateSummary_variation_threshold toFixed_ref Reference.toFixed_ref_alphabet
           [stat_half; stat_two] 1 stat_two).
  reflexivity.
Defined.

(** The two sentences in the summaries of the sample statistics. *)
Example summary_of_half_and_two :
  List.map (contains low_variation_text)
           (JS.map (summaryText toFixed_ref) [stat_half; stat_two]) = [true; false]
  /\ List.map (contains spread_out_text)
              (JS.map (summaryText toFixed_ref) [stat_half; stat_two]) = [false; true].
Proof. split; vm_compute; reflexivity. Qed.

(** Three records of one tenth: the rounded sum divided by three is above
    one tenth, the greatest element. *)
Lemma three_tenths_average_above_maximum :
  three_tenths <> []
  /\ Forall (fun d => List.length (values d) = 1%nat) three_tenths
  /\ exists st,
      calculateStats Math_pow_ref three_tenths = Some [st]
      /\ avg st = 0x1.999999999999bp-4
      /\ max st = 0x1.999999999999ap-4
      /\ (avg st <=? max st) = false.
Proof.
  split; [discriminate | ]. split; [repeat constructor | ].
  eexists. repeat split.
Qed.

(** Two records of the largest finite number: their sum overflows, and the
    average is +Infinity. *)
Example two_largest_average_infinite :
  exists st,
    calculateStats Math_pow_ref two_largest = Some [st]
    /\ avg st = infinity
    /\ (avg st <=? max st) = false.
Proof. eexists. repeat split. Qed.

Ltac multiples_upto_three :=
  match goal with
  | |- exact_multiples _ ?x =>
      split;
      [ reflexivity
      | let k := fresh "k" in
        let Hk := fresh "Hk" in
        let Hk3 := fresh "Hk3" in
        intros k Hk;
        assert (Hk3 : k = 1%nat \/ k = 2%nat \/ k = 3%nat) by lia;
        destruct Hk3 as [-> | [-> | ->]];
        [ exists x | exists (x + x)%float | exists (x + x + x)%float ];
        split; vm_compute; reflexivity ]
  end.

(** The order of the statistics on the two records of the worked example,
    and on three records of whole numbers, where the averages 7/3 and 14/3
    are rounded. *)
Lemma minimum_maximum_order_witness :
  (exists stats,
      calculateStats Math_pow_ref example_ab = Some stats
      /\ List.length stats = 2%nat
      /\ Forall (fun st => (min st <=? max st) = true) stats
      /\ Forall (fun st => (min st <=? avg st) = true /\ (avg st <=? max st) = true) stats)
  /\ (exists stats,
        calculateStats Math_pow_ref whole_three = Some stats
        /\ List.length stats = 2%nat
        /\ Forall (fun st => (min st <=? max st) = true) stats
        /\ Forall (fun st => (min st <=? avg st) = true /\ (avg st <=? max st) = true) stats).
Proof.
  split.
  - destruct (minimum_maximum_order Math_pow_ref example_ab 2)
      as (stats & Hs & Hl & Hm & _ & Htwo & _);
      [discriminate | repeat constructor | repeat constructor | ].
    exists stats. split; [exact Hs | ]. split; [exact Hl | ]. split; [exact Hm | ].
    apply Htwo; [reflexivity | repeat constructor].
  - destruct (minimum_maximum_order Math_pow_ref whole_three 2)
      as (stats & Hs & Hl & Hm & _ & _ & Hgen);
      [discriminate | repeat constructor | repeat constructor | ].
    exists stats. split; [exact Hs | ]. split; [exact Hl | ]. split; [exact Hm | ].
    apply Hgen; [reflexivity | ].
    unfold whole_three, record. cbn [List.length].
    repeat match goal with
           | |- Forall _ [] => constructor
           | |- Forall _ (_ :: _) => constructor
           | |- exact_multiples _ _ => multiples_upto_three
           | |- _ => progress (cbv beta; cbn [values])
           end.
Defined.

(** One record holding +Infinity: the deviation is NaN, not 0. *)
Lemma one_infinite_stdDev_nan :
  exists st,
    calculateStats Math_pow_ref one_infinite = Some [st]
    /\ stdDev st = nan
    /\ stdDev st <> 0.
Proof.
  eexists. split; [reflexivity | ]. split; [reflexivity | ].
  cbn. intros H. apply (f_equal is_nan) in H. discriminate H.
Qed.

(** One record of two finite values: both deviations are +0. *)
Lemma single_record_stdDev_zero_witness :
  exists stats,
    calculateStats Math_pow_ref one_record = Some stats
    /\ List.length stats = 2%nat
    /\ Forall (fun st => stdDev st = 0) stats.
Proof.
  apply (single_record_stdDev_zero Math_pow_ref eq_refl eq_refl (record "a" [1; 2])).
  repeat constructor.
Defined.

(** The chart data of the worked example. *)
Lemma chartData_series_witness :
  labels (chartData example_ab) = List.map label example_ab
  /\ List.length (datasets (chartData example_ab)) = 2%nat
  /\ forall i, i < 2 ->
       exists s,
         nth_error (datasets (chartData example_ab)) i = Some s
         /\ Series.label s = ("Input " ++ JS.string_of_nat (i + 1))%string
         /\ List.length (Series.data s) = List.length example_ab
         /\ forall j d, nth_error example_ab j = Some d ->
              nth_error (labels (chartData example_ab)) j = Some (label d)
              /\ exists v, nth_error (values d) i = Some v
                           /\ nth_error (Series.data s) j = Some (Some v).
Proof.
  apply (chartData_series example_ab 2); [discriminate | repeat constructor].
Defined.

(** The ragged dataset: two dimensions, and a read past the end of the
    second record. *)
Lemma shorter_record_read_out_of_bounds_witness :
  (exists stats,
      calculateStats Math_pow_ref ragged = Some stats
      /\ List.length stats = 2%nat)
  /\ exists index,
      index < 2
      /\ JS.index [3] index = None
      /\ In None (column ragged index).
Proof.
  destruct (shorter_record_read_out_of_bounds Math_pow_ref
              (record "a" [1; 2]) [record "b" [3]]) as (Hs & Hshort & _).
  split; [exact Hs | ].
  apply (Hshort (record "b" [3])); [left; reflexivity | cbn; lia].
Defined.

(** What the ragged dataset computes: the second dimension reads
    [undefined] from the shorter record and every statistic of it is NaN. *)
Example ragged_stats :
  calculateStats Math_pow_ref ragged
  = Some [ {| avg := 2; min := 1; max := 3; stdDev := 1 |};
           {| avg := nan; min := nan; max := nan; stdDev := nan |} ].
Proof. reflexivity. Qed.

(** Records of unequal length, every read inside its record: the second
    record is longer than the first, one dimension is computed, and no read
    yields [undefined]. *)
Lemma longer_second_in_bounds :
  ~ (exists D, Forall (fun d => List.length (values d) = D) longer_second)
  /\ calculateStats Math_pow_ref longer_second
     = Some [ {| avg := 2; min := 1; max := 3; stdDev := 1 |} ]
  /\ forall index, index < 1 -> ~ In None (column longer_second index).
Proof.
  split; [ | split].
  - intros (D & HD). inversion HD as [ | ? ? H1 HD']; subst.
    inversion HD' as [ | ? ? H2 _]; subst. discriminate H2.
  - reflexivity.
  - apply (reads_in_bounds_iff (record "a" [1]) [record "b" [3; 4]]).
    repeat constructor.
Qed.

(** ** NaN in the arithmetic *)

Module FloatNaN.

Lemma SF_nan (x : float) : Prim2SF x = S754_nan -> x = nan.
Proof. intros H. apply Prim2SF_inj. rewrite H. reflexivity. Qed.

Lemma add_nan_r (x : float) : x + nan = nan.
Proof.
  apply SF_nan. rewrite add_spec. change (Prim2SF nan) with S754_nan.
  destruct (Prim2SF x); reflexivity.
Qed.

Lemma add_nan_l (x : float) : nan + x = nan.
Proof. apply SF_nan. rewrite add_spec. reflexivity. Qed.

Lemma sub_nan_r (x : float) : x - nan = nan.
Proof.
  apply SF_nan. rewrite sub_spec. change (Prim2SF nan) with S754_nan.
  destruct (Prim2SF x); reflexivity.
Qed.

Lemma div_nan_l (x : float) : nan / x = nan.
Proof. apply SF_nan. rewrite div_spec. reflexivity. Qed.

Lemma is_nan_true_SF (x : float) : is_nan x = true <-> Prim2SF x = S754_nan.
Proof.
  split.
  - intros H. rewrite (FloatOrder.nan_is_nan x H). reflexivity.
  - intros H. rewrite (SF_nan x H). reflexivity.
Qed.

(** A sum that has reached NaN stays there, and a NaN term takes it there. *)
Lemma reduce_add_from_nan (values : list JS.value) :
  JS.reduce (fun a b => JS.add a b) nan values = nan.
Proof.
  unfold JS.reduce. induction values as [ | v values IH]; cbn [fold_left]; [reflexivity | ].
  replace (JS.add nan v) with nan by (unfold JS.add; rewrite add_nan_l; reflexivity).
  exact IH.
Qed.

Lemma reduce_add_poisoned (values : list JS.value) :
  poisoned values = true ->
  forall acc, JS.reduce (fun a b => JS.add a b) acc values = nan.
Proof.
  unfold poisoned.
  induction values as [ | v values IH]; cbn [existsb]; intros H acc; [discriminate H | ].
  change (JS.reduce (fun a b => JS.add a b) acc (v :: values))
    with (JS.reduce (fun a b => JS.add a b) (JS.add acc v) values).
  destruct (is_nan (JS.ToNumber v)) eqn:E.
  - replace (JS.add acc v) with nan
      by (unfold JS.add; rewrite (FloatOrder.nan_is_nan _ E), add_nan_r; reflexivity).
    apply reduce_add_from_nan.
  - apply IH. exact H.
Qed.

(** A reduction whose every step yields NaN yields NaN on a non-empty
    array. *)
Lemma reduce_all_nan {A : Type} (f : float -> A -> float) (values : list A) :
  (forall a v, f a v = nan) ->
  values <> [] ->
  forall acc, JS.reduce f acc values = nan.
Proof.
  intros Hf. unfold JS.reduce.
  induction values as [ | v values IH]; intros Hne acc; [congruence | ].
  cbn. destruct values as [ | w values]; [apply Hf | ].
  apply IH. discriminate.
Qed.

Lemma poisoned_not_empty (values : list JS.value) : poisoned values = true -> values <> [].
Proof. intros H ->. discriminate H. Qed.

(** [Math.min] and [Math.max] return NaN on a NaN argument, wherever it
    stands, and a number otherwise. *)
Lemma existsb_coerced (values : list JS.value) :
  existsb is_nan (List.map JS.ToNumber values) = poisoned values.
Proof.
  unfold poisoned. induction values as [ | v values IH]; cbn; [reflexivity | ].
  rewrite IH. reflexivity.
Qed.

Lemma not_existsb_Forall (coerced : list float) :
  existsb is_nan coerced = false -> Forall (fun x => is_nan x = false) coerced.
Proof.
  induction coerced as [ | x coerced IH]; cbn; intros H; constructor;
    apply orb_false_elim in H; destruct H as [H1 H2]; auto.
Qed.

Lemma min_loop_nan (coerced : list float) :
  existsb is_nan coerced = true -> forall lowest, JS.min_loop lowest coerced = nan.
Proof.
  induction coerced as [ | x coerced IH]; cbn; intros H lowest; [discriminate H | ].
  destruct (is_nan x); [reflexivity | ]. apply IH. exact H.
Qed.

Lemma max_loop_nan (coerced : list float) :
  existsb is_nan coerced = true -> forall highest, JS.max_loop highest coerced = nan.
Proof.
  induction coerced as [ | x coerced IH]; cbn; intros H highest; [discriminate H | ].
  destruct (is_nan x); [reflexivity | ]. apply IH. exact H.
Qed.

Lemma Math_min_is_nan (values : list JS.value) :
  is_nan (JS.Math_min values) = poisoned values.
Proof.
  unfold JS.Math_min. rewrite <- existsb_coerced.
  destruct (existsb is_nan (List.map JS.ToNumber values)) eqn:E.
  - rewrite (min_loop_nan _ E). reflexivity.
  - destruct (MinMax.min_loop_lower _ infinity (not_existsb_Forall _ E) eq_refl) as (H & _).
    exact (proj1 (FloatOrder.leb_not_nan _ _ H)).
Qed.

Lemma Math_max_is_nan (values : list JS.value) :
  is_nan (JS.Math_max values) = poisoned values.
Proof.
  unfold JS.Math_max. rewrite <- existsb_coerced.
  destruct (existsb is_nan (List.map JS.ToNumber values)) eqn:E.
  - rewrite (max_loop_nan _ E). reflexivity.
  - destruct (MinMax.max_loop_upper _ neg_infinity (not_existsb_Forall _ E) eq_refl) as (H & _).
    exact (proj2 (FloatOrder.leb_not_nan _ _ H)).
Qed.

End FloatNaN.

(** ** Sign of a square root, and equality from the order *)

Module FloatSign.

Lemma round_nonnegative (m e : Z) (l : location) :
  binary_round_aux prec emax false m e l = S754_nan
  \/ SFleb (S754_zero false) (binary_round_aux prec emax false m e l) = true.
Proof.
  unfold binary_round_aux.
  destruct (shr_fexp prec emax m e l) as [mrs e'].
  destruct (shr_fexp prec emax _ e' loc_Exact) as [mrs' e''].
  destruct (shr_m mrs') as [ | p | p]; [right; reflexivity | | left; reflexivity].
  destruct (Z.leb e'' (emax - prec)); right; reflexivity.
Qed.

Lemma SFsqrt_nonnegative (X : spec_float) :
  SF64sqrt X = S754_nan \/ SFleb (S754_zero false) (SF64sqrt X) = true.
Proof.
  unfold SF64sqrt, SFsqrt.
  destruct X as [s | s | | s m e]; try destruct s; auto.
  destruct (SFsqrt_core_binary prec emax (Zpos m) e) as [[mz ez] lz].
  apply round_nonnegative.
Qed.

(** A square root is NaN or at least zero. *)
Lemma sqrt_nonnegative (x : float) :
  is_nan (PrimFloat.sqrt x) = true \/ (0 <=? PrimFloat.sqrt x) = true.
Proof.
  rewrite FloatAxioms.leb_spec, FloatNaN.is_nan_true_SF, sqrt_spec.
  change (Prim2SF 0) with (S754_zero false).
  apply SFsqrt_nonnegative.
Qed.

Lemma SFleb_antisym (a b : spec_float) :
  SFleb a b = true -> SFleb b a = true -> SFeqb a b = true.
Proof.
  unfold SFleb, SFeqb.
  destruct a as [sa | sa | | sa ma ea], b as [sb | sb | | sb mb eb];
    try destruct sa; try destruct sb;
    intros H1 H2; FloatOrder.sf_cases.
Qed.

(** Two numbers, each at or below the other, are equal as numbers. *)
Lemma leb_antisym (x y : float) :
  (x <=? y) = true -> (y <=? x) = true -> (x =? y) = true.
Proof. rewrite !FloatAxioms.leb_spec, FloatAxioms.eqb_spec. apply SFleb_antisym. Qed.

End FloatSign.

(** ** Further properties of the statistics *)

Section Poison.

Variable Math_pow : float -> float -> float.

(** ECMA-262 fixes the power of a NaN base with a non-zero exponent: NaN. *)
Hypothesis pow_nan : Math_pow nan 2 = nan.

Import ArrayFacts.

(** X1: the minimum and the maximum of a dimension are NaN exactly when its
    column holds a NaN value or a read past the end of a record. *)
Theorem min_max_nan_iff_poisoned (data : list InputData) (i : nat) :
  is_nan (min (dimensionStats Math_pow data i)) = poisoned (column data i)
  /\ is_nan (max (dimensionStats Math_pow data i)) = poisoned (column data i).
Proof.
  split.
  - exact (FloatNaN.Math_min_is_nan (column data i)).
  - exact (FloatNaN.Math_max_is_nan (column data i)).
Qed.

Lemma poisoned_dimensionStats (data : list InputData) (i : nat) :
  poisoned (column data i) = true -> dimensionStats Math_pow data i = nan_stats.
Proof.
  intros H. unfold dimensionStats, nan_stats. cbv zeta.
  assert (Havg : JS.reduce (fun a b => JS.add a b) 0 (column data i)
                 / JS.length (column data i) = nan).
  { rewrite (FloatNaN.reduce_add_poisoned _ H). apply FloatNaN.div_nan_l. }
  rewrite Havg.
  rewrite (FloatNaN.reduce_all_nan
             (fun sum val => sum + Math_pow (JS.sub val nan) 2) (column data i)).
  - rewrite FloatNaN.div_nan_l.
    pose proof (FloatNaN.Math_min_is_nan (column data i)) as Hmin.
    pose proof (FloatNaN.Math_max_is_nan (column data i)) as Hmax.
    rewrite H in Hmin, Hmax.
    rewrite (FloatOrder.nan_is_nan _ Hmin), (FloatOrder.nan_is_nan _ Hmax).
    reflexivity.
  - intros a v. unfold JS.sub. rewrite FloatNaN.sub_nan_r, pow_nan.
    apply FloatNaN.add_nan_r.
  - apply FloatNaN.poisoned_not_empty. exact H.
Qed.

(** X2: when the column of a dimension holds a NaN value or a read past the
    end of a record, all four statistics of the dimension are NaN. *)
Theorem poisoned_column_all_nan (data : list InputData) (i : nat) :
  poisoned (column data i) = true ->
  avg (dimensionStats Math_pow data i) = nan
  /\ min (dimensionStats Math_pow data i) = nan
  /\ max (dimensionStats Math_pow data i) = nan
  /\ stdDev (dimensionStats Math_pow data i) = nan.
Proof.
  intros H. rewrite (poisoned_dimensionStats data i H). repeat split.
Qed.

Lemma short_record_poisons (data : list InputData) (d : InputData) (i : nat) :
  In d data ->
  List.length (values d) <= i ->
  poisoned (column data i) = true.
Proof.
  intros Hin Hle. unfold poisoned. apply existsb_exists.
  exists (JS.index (values d) i). split.
  - unfold column. exact (in_map (fun d0 => JS.index (values d0) i) data d Hin).
  - unfold JS.index. rewrite (proj2 (nth_error_None (values d) i) Hle). reflexivity.
Qed.

(** X3: a record with fewer values than the first one turns the entry of
    every dimension it lacks into the NaN entry. *)
Theorem short_record_statistics_nan
        (first : InputData) (rest : list InputData) (d : InputData) (i : nat) :
  In d rest ->
  List.length (values d) <= i ->
  i < List.length (values first) ->
  exists stats,
    calculateStats Math_pow (first :: rest) = Some stats
    /\ nth_error stats i = Some nan_stats.
Proof.
  intros Hin Hle Hi.
  destruct (calculateStats_first Math_pow first rest) as (stats & Hs & _ & Hnth).
  exists stats. split; [exact Hs | ].
  rewrite (Hnth i Hi). f_equal. apply poisoned_dimensionStats.
  apply (short_record_poisons (first :: rest) d i); [right; exact Hin | exact Hle].
Qed.

(** X4: every standard deviation returned is NaN or at least zero. *)
Theorem stdDev_nan_or_nonnegative (data : list InputData) (stats : list Stats) :
  calculateStats Math_pow data = Some stats ->
  Forall (fun st => is_nan (stdDev st) = true \/ (0 <=? stdDev st) = true) stats.
Proof.
  unfold calculateStats. destruct (JS.index data 0) as [first | ]; [ | discriminate].
  intros [= <-]. apply Forall_map. intros k x _.
  unfold dimensionStats. cbn [stdDev]. apply FloatSign.sqrt_nonnegative.
Qed.

End Poison.

(** ** The outputs of the component together *)

Section Outputs.

Variable Math_pow : float -> float -> float.
Variable toFixed : float -> nat -> string.

Import ArrayFacts.

(** X5: the evaluation of the component throws exactly when the dataset is
    empty. *)
Theorem component_throws_iff_empty (data : list InputData) :
  DataVisualizer Math_pow toFixed data = JS.Throw JS.TypeError <-> data = [].
Proof.
  split.
  - destruct data as [ | first rest]; [reflexivity | ].
    unfold DataVisualizer, calculateStats, generateSummary. cbn [JS.index nth_error].
    discriminate.
  - intros ->. reflexivity.
Qed.

(** X6: when the evaluation completes, the dataset has a first record and
    the statistics, the summaries and the chart series are as many as that
    record has values. *)
Theorem component_outputs_aligned (data : list InputData) (r : Rendered) :
  DataVisualizer Math_pow toFixed data = JS.Normal r ->
  exists first rest stats,
    data = first :: rest
    /\ rendered_stats r = Some stats
    /\ List.length stats = List.length (values first)
    /\ List.length (rendered_summaries r) = List.length (values first)
    /\ List.length (datasets (rendered_chart r)) = List.length (values first).
Proof.
  destruct data as [ | first rest]; [discriminate | ].
  unfold DataVisualizer, calculateStats, generateSummary. cbn [JS.index nth_error].
  intros [= <-]. cbn [rendered_stats rendered_summaries rendered_chart].
  exists first, rest. eexists. split; [reflexivity | ]. split; [reflexivity | ].
  rewrite chartData_datasets, !map_length. repeat split.
Qed.

(** X7: whatever the shapes of the records, series [i] of the chart has one
    point per label, and its point [j] is [undefined] exactly when record
    [j] has at most [i] values. *)
Theorem chart_series_points (first : InputData) (rest : list InputData) (i : nat) :
  i < List.length (values first) ->
  exists s,
    nth_error (datasets (chartData (first :: rest))) i = Some s
    /\ List.length (Series.data s) = List.length (labels (chartData (first :: rest)))
    /\ forall j d, nth_error (first :: rest) j = Some d ->
         (nth_error (Series.data s) j = Some None <-> List.length (values d) <= i).
Proof.
  intros Hi. destruct (nth_error_in_range (values first) i Hi) as (x & Hx).
  exists (series (first :: rest) i).
  split; [rewrite chartData_datasets; exact (map_nth _ _ _ _ Hx) | ].
  split.
  - change (Series.data (series (first :: rest) i))
      with (List.map (fun d0 => JS.index (values d0) i) (first :: rest)).
    change (labels (chartData (first :: rest))) with (List.map label (first :: rest)).
    rewrite !length_map. reflexivity.
  - intros j d Hj.
    change (Series.data (series (first :: rest) i))
      with (List.map (fun d0 => JS.index (values d0) i) (first :: rest)).
    rewrite (map_nth_error _ j (first :: rest) Hj). unfold JS.index.
    rewrite <- nth_error_None. split; [intros [= H]; exact H | intros ->; reflexivity].
Qed.

(** X8: the statistics at index [i] are computed from the very points that
    series [i] of the chart plots. *)
Theorem statistics_of_plotted_series
        (first : InputData) (rest : list InputData) (i : nat) :
  i < List.length (values first) ->
  exists s stats st,
    nth_error (datasets (chartData (first :: rest))) i = Some s
    /\ calculateStats Math_pow (first :: rest) = Some stats
    /\ nth_error stats i = Some st
    /\ avg st = JS.reduce (fun a b => JS.add a b) 0 (Series.data s) / JS.length (Series.data s)
    /\ min st = JS.Math_min (Series.data s)
    /\ max st = JS.Math_max (Series.data s)
    /\ stdDev st
       = PrimFloat.sqrt
           (JS.reduce (fun sum val => sum + Math_pow (JS.sub val (avg st)) 2) 0 (Series.data s)
            / JS.length (Series.data s)).
Proof.
  intros Hi. destruct (nth_error_in_range (values first) i Hi) as (x & Hx).
  destruct (calculateStats_first Math_pow first rest) as (stats & Hs & _ & Hnth).
  exists (series (first :: rest) i), stats, (dimensionStats Math_pow (first :: rest) i).
  split; [rewrite chartData_datasets; exact (map_nth _ _ _ _ Hx) | ].
  split; [exact Hs | ]. split; [exact (Hnth i Hi) | ].
  repeat split.
Qed.

End Outputs.

(** ** Order of the records, and their labels *)

Section Records.

Variable Math_pow : float -> float -> float.

Import ArrayFacts.

Lemma existsb_permutation {A : Type} (f : A -> bool) (l l' : list A) :
  Permutation l l' -> existsb f l = existsb f l'.
Proof.
  induction 1 as [ | x l l' _ IH | x y l | l l' l'' _ IH1 _ IH2]; cbn.
  - reflexivity.
  - rewrite IH. reflexivity.
  - destruct (f x), (f y); reflexivity.
  - congruence.
Qed.

Lemma column_permutation (data data' : list InputData) (i : nat) :
  Permutation data data' -> Permutation (column data i) (column data' i).
Proof. apply Permutation_map. Qed.

(** On numbers without NaN, the loop of [Math.min] from +Infinity returns
    the least of them, and that of [Math.max] from -Infinity the greatest. *)
Lemma min_loop_minimum (coerced : list float) :
  coerced <> [] ->
  Forall (fun x => is_nan x = false) coerced ->
  In (JS.min_loop infinity coerced) coerced
  /\ forall x, In x coerced -> (JS.min_loop infinity coerced <=? x) = true.
Proof.
  intros Hne Hall.
  destruct (MinMax.min_loop_lower coerced infinity Hall eq_refl) as (_ & R2 & R3).
  split; [ | exact R2].
  destruct R3 as [R3 | R3]; [ | exact R3].
  destruct coerced as [ | x0 rest]; [congruence | ].
  assert (Hx : (JS.min_loop infinity (x0 :: rest) <=? x0) = true)
    by (apply R2; left; reflexivity).
  rewrite R3 in Hx. apply FloatOrder.infinity_leb in Hx. rewrite R3. left. exact Hx.
Qed.

Lemma max_loop_maximum (coerced : list float) :
  coerced <> [] ->
  Forall (fun x => is_nan x = false) coerced ->
  In (JS.max_loop neg_infinity coerced) coerced
  /\ forall x, In x coerced -> (x <=? JS.max_loop neg_infinity coerced) = true.
Proof.
  intros Hne Hall.
  destruct (MinMax.max_loop_upper coerced neg_infinity Hall eq_refl) as (_ & R2 & R3).
  split; [ | exact R2].
  destruct R3 as [R3 | R3]; [ | exact R3].
  destruct coerced as [ | x0 rest]; [congruence | ].
  assert (Hx : (x0 <=? JS.max_loop neg_infinity (x0 :: rest)) = true)
    by (apply R2; left; reflexivity).
  rewrite R3 in Hx. apply FloatOrder.leb_neg_infinity in Hx. rewrite R3. left. exact Hx.
Qed.

Lemma Math_min_permutation (values values' : list JS.value) :
  Permutation values values' ->
  (is_nan (JS.Math_min values) = true /\ is_nan (JS.Math_min values') = true)
  \/ (JS.Math_min values =? JS.Math_min values') = true.
Proof.
  intros Hp.
  pose proof (FloatNaN.Math_min_is_nan values) as Hn.
  pose proof (FloatNaN.Math_min_is_nan values') as Hn'.
  rewrite <- (existsb_permutation _ _ _ Hp : poisoned values = poisoned values') in Hn'.
  destruct (poisoned values) eqn:E; [left; split; assumption | right].
  unfold JS.Math_min.
  assert (Hc : Permutation (List.map JS.ToNumber values) (List.map JS.ToNumber values'))
    by (apply Permutation_map; exact Hp).
  rewrite <- FloatNaN.existsb_coerced in E.
  pose proof (FloatNaN.not_existsb_Forall _ E) as Hall.
  assert (Hall' : Forall (fun x => is_nan x = false) (List.map JS.ToNumber values')).
  { rewrite Forall_forall in *. intros x Hx. apply Hall.
    exact (Permutation_in x (Permutation_sym Hc) Hx). }
  destruct (List.map JS.ToNumber values) as [ | x0 l] eqn:El.
  - apply Permutation_nil in Hc. rewrite Hc. reflexivity.
  - assert (Hne' : List.map JS.ToNumber values' <> []).
    { intros E'. rewrite E' in Hc. apply Permutation_sym, Permutation_nil in Hc.
      discriminate Hc. }
    destruct (min_loop_minimum (x0 :: l) ltac:(discriminate) Hall) as (Hin & Hlow).
    destruct (min_loop_minimum _ Hne' Hall') as (Hin' & Hlow').
    apply FloatSign.leb_antisym.
    + apply Hlow. exact (Permutation_in _ (Permutation_sym Hc) Hin').
    + apply Hlow'. exact (Permutation_in _ Hc Hin).
Qed.

Lemma Math_max_permutation (values values' : list JS.value) :
  Permutation values values' ->
  (is_nan (JS.Math_max values) = true /\ is_nan (JS.Math_max values') = true)
  \/ (JS.Math_max values =? JS.Math_max values') = true.
Proof.
  intros Hp.
  pose proof (FloatNaN.Math_max_is_nan values) as Hn.
  pose proof (FloatNaN.Math_max_is_nan values') as Hn'.
  rewrite <- (existsb_permutation _ _ _ Hp : poisoned values = poisoned values') in Hn'.
  destruct (poisoned values) eqn:E; [left; split; assumption | right].
  unfold JS.Math_max.
  assert (Hc : Permutation (List.map JS.ToNumber values) (List.map JS.ToNumber values'))
    by (apply Permutation_map; exact Hp).
  rewrite <- FloatNaN.existsb_coerced in E.
  pose proof (FloatNaN.not_existsb_Forall _ E) as Hall.
  assert (Hall' : Forall (fun x => is_nan x = false) (List.map JS.ToNumber values')).
  { rewrite Forall_forall in *. intros x Hx. apply Hall.
    exact (Permutation_in x (Permutation_sym Hc) Hx). }
  destruct (List.map JS.ToNumber values) as [ | x0 l] eqn:El.
  - apply Permutation_nil in Hc. rewrite Hc. reflexivity.
  - assert (Hne' : List.map JS.ToNumber values' <> []).
    { intros E'. rewrite E' in Hc. apply Permutation_sym, Permutation_nil in Hc.
      discriminate Hc. }
    destruct (max_loop_maximum (x0 :: l) ltac:(discriminate) Hall) as (Hin & Hup).
    destruct (max_loop_maximum _ Hne' Hall') as (Hin' & Hup').
    apply FloatSign.leb_antisym.
    + apply Hup'. exact (Permutation_in _ Hc Hin).
    + apply Hup. exact (Permutation_in _ (Permutation_sym Hc) Hin').
Qed.

(** X9: reordering the records leaves the minimum and the maximum of every
    dimension the same number, or NaN as before. *)
Theorem min_max_record_order (data data' : list InputData) (i : nat) :
  Permutation data data' ->
  ((is_nan (min (dimensionStats Math_pow data i)) = true
    /\ is_nan (min (dimensionStats Math_pow data' i)) = true)
   \/ (min (dimensionStats Math_pow data i) =? min (dimensionStats Math_pow data' i)) = true)
  /\ ((is_nan (max (dimensionStats Math_pow data i)) = true
       /\ is_nan (max (dimensionStats Math_pow data' i)) = true)
      \/ (max (dimensionStats Math_pow data i) =? max (dimensionStats Math_pow data' i)) = true).
Proof.
  intros Hp. pose proof (column_permutation data data' i Hp) as Hc. split.
  - exact (Math_min_permutation _ _ Hc).
  - exact (Math_max_permutation _ _ Hc).
Qed.

Lemma map_from_ext {A B : Type} (f g : A -> nat -> B) (a : list A) :
  (forall x k, f x k = g x k) -> forall i, JS.map_from f i a = JS.map_from g i a.
Proof.
  intros H. induction a as [ | x a IH]; intros i; cbn; [reflexivity | ].
  rewrite H, IH. reflexivity.
Qed.

Lemma column_of_values (data : list InputData) (i : nat) :
  column data i = List.map (fun vs => JS.index vs i) (List.map values data).
Proof. unfold column. rewrite map_map. reflexivity. Qed.

(** X10: the statistics depend on the values of the records only: datasets
    that differ in their labels alone have the same statistics. *)
Theorem statistics_ignore_labels (data data' : list InputData) :
  List.map values data = List.map values data' ->
  calculateStats Math_pow data = calculateStats Math_pow data'.
Proof.
  intros H.
  assert (Hd : forall i, dimensionStats Math_pow data i = dimensionStats Math_pow data' i).
  { intros i. unfold dimensionStats. rewrite !column_of_values, H. reflexivity. }
  unfold calculateStats.
  destruct data as [ | d data], data' as [ | d' data']; try discriminate H; [reflexivity | ].
  cbn [JS.index nth_error]. injection H as Hv _. rewrite Hv. f_equal.
  apply map_from_ext. intros _ k. apply Hd.
Qed.

End Records.

(** ** Numbering and wording of what is shown *)

Section Shown.

Variable Math_pow : float -> float -> float.
Variable toFixed : float -> nat -> string.

Hypothesis pow_nan : Math_pow nan 2 = nan.
Hypothesis pow_zero : Math_pow 0 2 = 0.
Hypothesis pow_neg_zero : Math_pow neg_zero 2 = 0.
Hypothesis toFixed_alphabet :
  forall x fractionDigits, string_forall number_char (toFixed x fractionDigits) = true.

Import ArrayFacts.

Lemma starts_with_cancel (a b c : string) :
  starts_with (a ++ b) (a ++ c) = starts_with b c.
Proof.
  induction a as [ | x a IH]; cbn; [reflexivity | ].
  rewrite Ascii.eqb_refl. exact IH.
Qed.

Lemma map_nth_inv {A B : Type} (f : A -> nat -> B) (a : list A) (k : nat) (y : B) :
  nth_error (JS.map f a) k = Some y ->
  exists x, nth_error a k = Some x /\ y = f x k.
Proof.
  intros H. destruct (nth_error a k) as [x | ] eqn:E.
  - rewrite (map_nth f a k x E) in H. injection H as <-. eauto.
  - apply nth_error_None in E. rewrite <- (map_length f a) in E.
    apply nth_error_None in E. congruence.
Qed.

(** X11: the chart series, the statistics card and the summary of
    dimension [k] carry the same number, [k + 1]. *)
Theorem numbering_agrees (first : InputData) (rest : list InputData) (k : nat) :
  k < List.length (values first) ->
  exists stats summaries s c text,
    calculateStats Math_pow (first :: rest) = Some stats
    /\ generateSummary toFixed (Some stats) = JS.Normal summaries
    /\ nth_error (datasets (chartData (first :: rest))) k = Some s
    /\ Series.label s = ("Input " ++ JS.string_of_nat (k + 1))%string
    /\ nth_error (statisticsPanel toFixed (Some stats)) k = Some c
    /\ Card.title c = ("Input " ++ JS.string_of_nat (k + 1) ++ " Statistics")%string
    /\ nth_error summaries k = Some text
    /\ starts_with (nl ++ "      Input " ++ JS.string_of_nat (k + 1) ++ ":")%string text = true.
Proof.
  intros Hk. destruct (nth_error_in_range (values first) k Hk) as (x & Hx).
  destruct (calculateStats_first Math_pow first rest) as (stats & Hs & _ & Hnth).
  specialize (Hnth k Hk).
  exists stats, (JS.map (summaryText toFixed) stats), (series (first :: rest) k),
    (statCard toFixed (dimensionStats Math_pow (first :: rest) k) k),
    (summaryText toFixed (dimensionStats Math_pow (first :: rest) k) k).
  split; [exact Hs | ]. split; [reflexivity | ].
  split; [rewrite chartData_datasets; exact (map_nth _ _ _ _ Hx) | ].
  split; [reflexivity | ].
  split; [exact (map_nth _ _ _ _ Hnth) | ].
  split; [reflexivity | ].
  split; [exact (map_nth _ _ _ _ Hnth) | ].
  unfold summaryText. rewrite !starts_with_cancel. apply Text.starts_with_app.
Qed.

(** X12: a dimension whose column holds a NaN value or a read past the end
    of a record is summarised with the spread-out sentence. *)
Theorem poisoned_summary_spread_out
        (first : InputData) (rest : list InputData) (i : nat) :
  i < List.length (values first) ->
  poisoned (column (first :: rest) i) = true ->
  exists summaries text,
    generateSummary toFixed (calculateStats Math_pow (first :: rest)) = JS.Normal summaries
    /\ nth_error summaries i = Some text
    /\ contains spread_out_text text = true
    /\ contains low_variation_text text = false.
Proof.
  intros Hi Hp.
  destruct (calculateStats_first Math_pow first rest) as (stats & Hs & _ & Hnth).
  specialize (Hnth i Hi). rewrite Hs.
  exists (JS.map (summaryText toFixed) stats),
    (summaryText toFixed (dimensionStats Math_pow (first :: rest) i) i).
  split; [reflexivity | ]. split; [exact (map_nth _ _ _ _ Hnth) | ].
  destruct (summaryText_phrase toFixed toFixed_alphabet
              (dimensionStats Math_pow (first :: rest) i) i) as (Hlow & Hspread).
  rewrite Hlow, Hspread, (poisoned_dimensionStats Math_pow pow_nan _ _ Hp).
  split; reflexivity.
Qed.

Lemma single_stdDev_zero (d : InputData) (k : nat) (x : float) :
  nth_error (values d) k = Some x ->
  is_finite x = true ->
  stdDev (dimensionStats Math_pow [d] k) = 0.
Proof.
  intros Hk Hx. rewrite (dimensionStats_single Math_pow d k x Hk). cbn [stdDev].
  destruct (FloatExact.deviation_of_one x Hx) as [E | E]; rewrite E.
  - rewrite pow_zero. reflexivity.
  - rewrite pow_neg_zero. reflexivity.
Qed.

(** X13: a dataset of one record with finite values is summarised, in every
    dimension, with the low-variation sentence. *)
Theorem single_record_summary_low_variation (d : InputData) :
  Forall (fun x => is_finite x = true) (values d) ->
  exists summaries,
    generateSummary toFixed (calculateStats Math_pow [d]) = JS.Normal summaries
    /\ List.length summaries = List.length (values d)
    /\ Forall (fun text => contains low_variation_text text = true
                           /\ contains spread_out_text text = false) summaries.
Proof.
  intros Hfin. eexists. split; [reflexivity | ].
  split; [rewrite !map_length; reflexivity | ].
  apply Forall_map. intros k st Hst.
  apply map_nth_inv in Hst. destruct Hst as (x & Hx & ->).
  destruct (summaryText_phrase toFixed toFixed_alphabet
              (dimensionStats Math_pow [d] k) k) as (Hlow & Hspread).
  rewrite Hlow, Hspread, (single_stdDev_zero d k x Hx).
  - split; reflexivity.
  - rewrite Forall_forall in Hfin. apply Hfin. exact (nth_error_In _ _ Hx).
Qed.

End Shown.

(** ** The further statements at sample inputs *)

(** The ragged dataset: the second dimension reads past the second record. *)
Lemma poisoned_column_all_nan_witness :
  avg (dimensionStats Math_pow_ref ragged 1) = nan
  /\ min (dimensionStats Math_pow_ref ragged 1) = nan
  /\ max (dimensionStats Math_pow_ref ragged 1) = nan
  /\ stdDev (dimensionStats Math_pow_ref ragged 1) = nan.
Proof.
  apply (poisoned_column_all_nan Math_pow_ref eq_refl ragged 1). reflexivity.
Defined.

Lemma short_record_statistics_nan_witness :
  exists stats,
    calculateStats Math_pow_ref ragged = Some stats
    /\ nth_error stats 1 = Some nan_stats.
Proof.
  apply (short_record_statistics_nan Math_pow_ref eq_refl
           (record "a" [1; 2]) [record "b" [3]] (record "b" [3]) 1);
    [left; reflexivity | cbn; lia | cbn; lia].
Defined.

(** The deviations of the worked example. *)
Lemma stdDev_nan_or_nonnegative_witness :
  Forall (fun st => is_nan (stdDev st) = true \/ (0 <=? stdDev st) = true)
         [ {| avg := 2; min := 1; max := 3; stdDev := 1 |};
           {| avg := 3; min := 2; max := 4; stdDev := 1 |} ].
Proof.
  apply (stdDev_nan_or_nonnegative Math_pow_ref example_ab). reflexivity.
Defined.

(** The outputs for the worked example. *)
Lemma component_outputs_aligned_witness :
  exists r,
    DataVisualizer Math_pow_ref toFixed_ref example_ab = JS.Normal r
    /\ exists first rest stats,
        example_ab = first :: rest
        /\ rendered_stats r = Some stats
        /\ List.length stats = List.length (values first)
        /\ List.length (rendered_summaries r) = List.length (values first)
        /\ List.length (datasets (rendered_chart r)) = List.length (values first).
Proof.
  eexists. split; [reflexivity | ].
  apply (component_outputs_aligned Math_pow_ref toFixed_ref example_ab). reflexivity.
Defined.

(** Series 2 of the ragged dataset: [undefined] at the second record. *)
Lemma chart_series_points_witness :
  exists s,
    nth_error (datasets (chartData ragged)) 1 = Some s
    /\ List.length (Series.data s) = List.length (labels (chartData ragged))
    /\ forall j d, nth_error ragged j = Some d ->
         (nth_error (Series.data s) j = Some None <-> List.length (values d) <= 1).
Proof.
  apply (chart_series_points (record "a" [1; 2]) [record "b" [3]] 1). cbn. lia.
Defined.

Lemma statistics_of_plotted_series_witness :
  exists s stats st,
    nth_error (datasets (chartData example_ab)) 0 = Some s
    /\ calculateStats Math_pow_ref example_ab = Some stats
    /\ nth_error stats 0 = Some st
    /\ avg st = JS.reduce (fun a b => JS.add a b) 0 (Series.data s) / JS.length (Series.data s)
    /\ min st = JS.Math_min (Series.data s)
    /\ max st = JS.Math_max (Series.data s)
    /\ stdDev st
       = PrimFloat.sqrt
           (JS.reduce (fun sum val => sum + Math_pow_ref (JS.sub val (avg st)) 2) 0
                      (Series.data s)
            / JS.length (Series.data s)).
Proof.
  apply (statistics_of_plotted_series Math_pow_ref
           (record "a" [1; 2]) [record "b" [3; 4]] 0).
  cbn. lia.
Defined.

(** The worked example and its reversal. *)
Lemma min_max_record_order_witness :
  ((is_nan (min (dimensionStats Math_pow_ref example_ab 0)) = true
    /\ is_nan (min (dimensionStats Math_pow_ref example_ba 0)) = true)
   \/ (min (dimensionStats Math_pow_ref example_ab 0)
       =? min (dimensionStats Math_pow_ref example_ba 0)) = true)
  /\ ((is_nan (max (dimensionStats Math_pow_ref example_ab 0)) = true
       /\ is_nan (max (dimensionStats Math_pow_ref example_ba 0)) = true)
      \/ (max (dimensionStats Math_pow_ref example_ab 0)
          =? max (dimensionStats Math_pow_ref example_ba 0)) = true).
Proof.
  apply (min_max_record_order Math_pow_ref example_ab example_ba 0).
  apply perm_swap.
Defined.

(** The worked example under other labels. *)
Lemma statistics_ignore_labels_witness :
  calculateStats Math_pow_ref example_ab = calculateStats Math_pow_ref example_xy.
Proof.
  apply (statistics_ignore_labels Math_pow_ref example_ab example_xy). reflexivity.
Defined.

Lemma numbering_agrees_witness :
  exists stats summaries s c text,
    calculateStats Math_pow_ref example_ab = Some stats
    /\ generateSummary toFixed_ref (Some stats) = JS.Normal summaries
    /\ nth_error (datasets (chartData example_ab)) 1 = Some s
    /\ Series.label s = "Input 2"%string
    /\ nth_error (statisticsPanel toFixed_ref (Some stats)) 1 = Some c
    /\ Card.title c = "Input 2 Statistics"%string
    /\ nth_error summaries 1 = Some text
    /\ starts_with (nl ++ "      Input 2:")%string text = true.
Proof.
  apply (numbering_agrees Math_pow_ref toFixed_ref
           (record "a" [1; 2]) [record "b" [3; 4]] 1).
  cbn. lia.
Defined.

(** The summary of the second dimension of the ragged dataset. *)
Lemma poisoned_summary_spread_out_witness :
  exists summaries text,
    generateSummary toFixed_ref (calculateStats Math_pow_ref ragged) = JS.Normal summaries
    /\ nth_error summaries 1 = Some text
    /\ contains spread_out_text text = true
    /\ contains low_variation_text text = false.
Proof.
  apply (poisoned_summary_spread_out Math_pow_ref toFixed_ref eq_refl
           Reference.toFixed_ref_alphabet (record "a" [1; 2]) [record "b" [3]] 1);
    [cbn; lia | reflexivity].
Defined.

(** The summaries of one record of two finite values. *)
Lemma single_record_summary_low_variation_witness :
  exists summaries,
    generateSummary toFixed_ref (calculateStats Math_pow_ref one_record)
    = JS.Normal summaries
    /\ List.length summaries = 2%nat
    /\ Forall (fun text => contains low_variation_text text = true
                           /\ contains spread_out_text text = false) summaries.
Proof.
  apply (single_record_summary_low_variation Math_pow_ref toFixed_ref eq_refl eq_refl
           Reference.toFixed_ref_alphabet (record "a" [1; 2])).
  repeat constructor.
Defined.
